(** * sdbus-c++ : the object-side registry of [src/Object.cpp]

    A shallow embedding of [sdbus::internal::Object]: the registration calls
    ([registerMethod], [registerSignal], [registerProperty]), the construction
    and activation of the per-interface vtables ([finishRegistration]) and the
    three sd-bus entry points ([sdbus_method_callback],
    [sdbus_property_get_callback], [sdbus_property_set_callback]).

    Conventions of the embedding:
    - [std::string] is [string]; a [const char*] obtained with [c_str()] is the
      prefix of the string up to its first NUL character;
    - [std::map<std::string, T>] is a [gmap string T]; its iteration order
      (ascending keys) is given by [iterate];
    - [std::function] is an [option]: [None] is the empty function object, and
      calling a user callback yields either a normal completion or a raised
      exception; a callback is a function of the messages it is given, so
      what is proved of a dispatch is proved for callbacks that do not call
      back into the [Object] while they run;
    - a member function that can throw returns a [Result], which keeps the
      state reached when the exception left the function;
    - [assert] is a check that aborts the program when it fails (a build
      without NDEBUG); the state a call had reached when the program was
      aborted is not kept. *)

From Stdlib Require Import Ascii String ZArith.
From stdpp Require Import gmap strings list fin_maps sorting.

Local Open Scope string_scope.
Local Open Scope list_scope.

(** ** Strings *)

Definition NUL : ascii := Ascii.Ascii false false false false false false false false.

(** [s.c_str()] as the callee reads it: the characters before the first NUL. *)
Fixpoint c_str (s : string) : string :=
  match s with
  | EmptyString => EmptyString
  | String a s' => if decide (a = NUL) then EmptyString else String a (c_str s')
  end.

(** A string without embedded NUL character. *)
Fixpoint nul_free (s : string) : bool :=
  match s with
  | EmptyString => true
  | String a s' => if decide (a = NUL) then false else nul_free s'
  end.

(** ** [std::map<std::string, V>] *)

Module StdMap.
Section std_map.
Context {V : Type}.

(** [m[k]]: the mapped value, and the map after the access (a
    default-constructed value is inserted when [k] is absent). *)
Definition subscript (dflt : V) (k : string) (m : gmap string V)
  : V * gmap string V :=
  match m !! k with
  | Some v => (v, m)
  | None => (dflt, <[k := dflt]> m)
  end.

(** [m.emplace(k, v)]: the map afterwards and the [.second] of the returned
    pair (whether the insertion took place). *)
Definition emplace (k : string) (v : V) (m : gmap string V)
  : gmap string V * bool :=
  match m !! k with
  | Some _ => (m, false)
  | None => (<[k := v]> m, true)
  end.

(** Assignment through a reference obtained from the map at key [k]. *)
Definition store (k : string) (v : V) (m : gmap string V) : gmap string V :=
  <[k := v]> m.

Definition key_le : relation (string * V) := λ x y, String.le x.1 y.1.

(** The sequence visited by [for (auto& item : m)]: ascending keys. *)
Definition iterate (m : gmap string V) : list (string * V) :=
  merge_sort key_le (map_to_list m).
End std_map.
End StdMap.

(** ** Messages and callbacks *)

Inductive MessageType := eMethodCall | eMethodReply | ePlainMessage.

(** Modelled from the spec: [sdbus::Message] (Message.h is not among the
    sources) exposes the interface and member names of an incoming event, a
    [createReply()] producing a writable outgoing message, and [send()]. *)
Record Message := {
  msgType : MessageType;
  msgInterfaceName : string;
  msgMemberName : string;
  msgBody : list Z
}.

Definition getInterfaceName (m : Message) : string := msgInterfaceName m.
Definition getMemberName (m : Message) : string := msgMemberName m.

Definition createReply (m : Message) : Message :=
  {| msgType := eMethodReply;
     msgInterfaceName := msgInterfaceName m;
     msgMemberName := msgMemberName m;
     msgBody := [] |}.

(** Modelled from the spec: a typed application error ([sdbus::Error], Error.h
    is not among the sources) carries a symbolic name and a human-readable
    message. A user callback can raise one, or an exception of any other
    type. *)
Inductive Raised :=
| sdbus_Error (name message : string)
| other_exception (what : string).

(** One invocation of a user callback. *)
Inductive Invoked (A : Type) :=
| Done (a : A)
| Raise (e : Raised).
Arguments Done {A} a.
Arguments Raise {A} e.

(** Modelled from the spec: the callback types (IObject.h is not among the
    sources). A method callback takes the incoming message and the reply and
    may raise; it fills the reply. *)
Definition method_callback := option (Message → Message → Invoked Message).
(** A getter takes the reply, fills it, and may raise. *)
Definition property_get_callback := option (Message → Invoked Message).
(** A setter takes the incoming value and may raise. *)
Definition property_set_callback := option (Message → Invoked ()).

(** [!callback] *)
Definition is_empty {A} (f : option A) : bool :=
  match f with None => true | Some _ => false end.

(** ** Errors thrown by the registration calls *)

Definition EINVAL : Z := 22.

(** Modelled from the spec: [SDBUS_THROW_ERROR_IF(cond, msg, errno)] (Error.h is
    not among the sources) raises an error synchronously to the registering
    caller when [cond] holds; the error keeps the two arguments the macro is
    given. *)
Record Error := { errMessage : string; errNo : Z }.

Inductive Result (S : Type) :=
| Ok (s : S)
| Throw (e : Error) (s : S).
Arguments Ok {S} s.
Arguments Throw {S} e s.

Definition state_of {S} (r : Result S) : S :=
  match r with Ok s => s | Throw _ s => s end.

(** ** The vtable *)

Inductive Handler :=
| addr_sdbus_method_callback
| addr_sdbus_property_get_callback
| addr_sdbus_property_set_callback.

(** Modelled from the spec: the [createVTable...Item] helpers (VTableUtils.h is
    not among the sources) build the member descriptors of a dispatch table:
    a start marker, a method, a signal, a read-only property, a writable
    property, an end marker. Names and signatures are C strings. *)
Inductive sd_bus_vtable :=
| VTableStartItem
| VTableMethodItem (member signature result : string) (handler : Handler)
| VTableSignalItem (member signature : string)
| VTablePropertyItem (member signature : string) (getter : Handler)
| VTableWritablePropertyItem (member signature : string) (getter setter : Handler)
| VTableEndItem.

Definition createVTableStartItem : sd_bus_vtable := VTableStartItem.
Definition createVTableMethodItem := VTableMethodItem.
Definition createVTableSignalItem := VTableSignalItem.
Definition createVTablePropertyItem := VTablePropertyItem.
Definition createVTableWritablePropertyItem := VTableWritablePropertyItem.
Definition createVTableEndItem : sd_bus_vtable := VTableEndItem.

(** ** The registry *)

(** Modelled from the spec: the data members of [Object] and [InterfaceData]
    (Object.h is not among the sources), with the field names Object.cpp
    uses: per interface three name-keyed maps of descriptors, the vtable and
    the slot; per object the path and the map of interfaces. *)

Module MethodData.
Record t := mk {
  inputArgs_ : string;
  outputArgs_ : string;
  callback_ : method_callback
}.
Definition default : t := mk "" "" None.
End MethodData.

Module SignalData.
Record t := mk { signature_ : string }.
Definition default : t := mk "".
End SignalData.

Module PropertyData.
Record t := mk {
  signature_ : string;
  getCallback_ : property_get_callback;
  setCallback_ : property_set_callback
}.
Definition default : t := mk "" None None.
End PropertyData.

(** [slot_]: a [std::unique_ptr] whose deleter is a [std::function]; the owned
    slot, and whether the deleter has been assigned. *)
Record Slot := {
  slot_ptr : option nat;
  slot_deleter : bool
}.

Record InterfaceData := {
  methods_ : gmap string MethodData.t;
  signals_ : gmap string SignalData.t;
  properties_ : gmap string PropertyData.t;
  vtable_ : list sd_bus_vtable;
  slot_ : Slot
}.

Definition InterfaceData_default : InterfaceData :=
  {| methods_ := ∅; signals_ := ∅; properties_ := ∅; vtable_ := [];
     slot_ := {| slot_ptr := None; slot_deleter := false |} |}.

Definition with_methods (d : InterfaceData) (m : gmap string MethodData.t) :=
  {| methods_ := m; signals_ := signals_ d; properties_ := properties_ d;
     vtable_ := vtable_ d; slot_ := slot_ d |}.
Definition with_signals (d : InterfaceData) (m : gmap string SignalData.t) :=
  {| methods_ := methods_ d; signals_ := m; properties_ := properties_ d;
     vtable_ := vtable_ d; slot_ := slot_ d |}.
Definition with_properties (d : InterfaceData) (m : gmap string PropertyData.t) :=
  {| methods_ := methods_ d; signals_ := signals_ d; properties_ := m;
     vtable_ := vtable_ d; slot_ := slot_ d |}.
Definition with_vtable (d : InterfaceData) (v : list sd_bus_vtable) :=
  {| methods_ := methods_ d; signals_ := signals_ d; properties_ := properties_ d;
     vtable_ := v; slot_ := slot_ d |}.
Definition with_slot (d : InterfaceData) (s : Slot) :=
  {| methods_ := methods_ d; signals_ := signals_ d; properties_ := properties_ d;
     vtable_ := vtable_ d; slot_ := s |}.

Record Object := {
  objectPath_ : string;
  interfaces_ : gmap string InterfaceData
}.

Definition with_interfaces (o : Object) (m : gmap string InterfaceData) : Object :=
  {| objectPath_ := objectPath_ o; interfaces_ := m |}.

(** [Object::Object(connection, objectPath)] *)
Definition createObject (objectPath : string) : Object :=
  {| objectPath_ := objectPath; interfaces_ := ∅ |}.

(** ** Registration *)

Definition registerMethod (interfaceName methodName inputSignature outputSignature : string)
    (methodCallback : method_callback) (o : Object) : Result Object :=
  if is_empty methodCallback
  then Throw {| errMessage := "Invalid method callback provided"; errNo := EINVAL |} o
  else
    let '(interface, interfaces1) :=
      StdMap.subscript InterfaceData_default interfaceName (interfaces_ o) in
    let methodData := MethodData.mk inputSignature outputSignature methodCallback in
    let '(methods1, inserted) := StdMap.emplace methodName methodData (methods_ interface) in
    let o1 := with_interfaces o
                (StdMap.store interfaceName (with_methods interface methods1) interfaces1) in
    if negb inserted
    then Throw {| errMessage := "Failed to register method: method already exists";
                  errNo := EINVAL |} o1
    else Ok o1.

Definition registerSignal (interfaceName signalName signature : string)
    (o : Object) : Result Object :=
  let '(interface, interfaces1) :=
    StdMap.subscript InterfaceData_default interfaceName (interfaces_ o) in
  let signalData := SignalData.mk signature in
  let '(signals1, inserted) := StdMap.emplace signalName signalData (signals_ interface) in
  let o1 := with_interfaces o
              (StdMap.store interfaceName (with_signals interface signals1) interfaces1) in
  if negb inserted
  then Throw {| errMessage := "Failed to register signal: signal already exists";
                errNo := EINVAL |} o1
  else Ok o1.

Definition registerProperty (interfaceName propertyName signature : string)
    (getCallback : property_get_callback) (setCallback : property_set_callback)
    (o : Object) : Result Object :=
  if is_empty getCallback && is_empty setCallback
  then Throw {| errMessage := "Invalid property callbacks provided"; errNo := EINVAL |} o
  else
    let '(interface, interfaces1) :=
      StdMap.subscript InterfaceData_default interfaceName (interfaces_ o) in
    let propertyData := PropertyData.mk signature getCallback setCallback in
    let '(properties1, inserted) :=
      StdMap.emplace propertyName propertyData (properties_ interface) in
    let o1 := with_interfaces o
                (StdMap.store interfaceName (with_properties interface properties1) interfaces1) in
    if negb inserted
    then Throw {| errMessage := "Failed to register property: property already exists";
                  errNo := EINVAL |} o1
    else Ok o1.

(** The four-argument overload: the setter is [property_set_callback{}]. *)
Definition registerProperty_get (interfaceName propertyName signature : string)
    (getCallback : property_get_callback) (o : Object) : Result Object :=
  registerProperty interfaceName propertyName signature getCallback None o.

(** ** The connection *)

(** Modelled from the spec: the transport collaborator (IConnection.h is not
    among the sources) installs a dispatch table at (object path, interface
    name) and hands back a slot; removing the slot uninstalls the table. *)
Record Connection := {
  installed_ : list (nat * (string * string * list sd_bus_vtable));
  nextSlot_ : nat
}.

Definition Connection_initial : Connection :=
  {| installed_ := []; nextSlot_ := 0 |}.

Definition addObjectVTable (objectPath interfaceName : string)
    (vtable : list sd_bus_vtable) (c : Connection) : nat * Connection :=
  (nextSlot_ c,
   {| installed_ := installed_ c ++ [(nextSlot_ c, (objectPath, interfaceName, vtable))];
      nextSlot_ := S (nextSlot_ c) |}).

Definition removeObjectVTable (slot : nat) (c : Connection) : Connection :=
  {| installed_ := filter (λ e, e.1 ≠ slot) (installed_ c);
     nextSlot_ := nextSlot_ c |}.

(** ** Building and activating the vtables *)

(** How a call that is not a registration call ends: it returns, an exception
    leaves it, or the program is aborted (an [assert] fails, or
    [std::terminate] is called). *)
Inductive Completion (A : Type) :=
| Returned (a : A)
| Propagated (e : Raised)
| Aborted.
Arguments Returned {A} a.
Arguments Propagated {A} e.
Arguments Aborted {A}.

Definition push_back {A} (x : A) (v : list A) : list A := v ++ [x].

Definition registerMethodsToVTable (interfaceData : InterfaceData)
    (vtable : list sd_bus_vtable) : list sd_bus_vtable :=
  foldl (λ vtable item,
           let methodName := item.1 in
           let methodData := item.2 in
           push_back (createVTableMethodItem (c_str methodName)
                        (c_str (MethodData.inputArgs_ methodData))
                        (c_str (MethodData.outputArgs_ methodData))
                        addr_sdbus_method_callback) vtable)
        vtable (StdMap.iterate (methods_ interfaceData)).

Definition registerSignalsToVTable (interfaceData : InterfaceData)
    (vtable : list sd_bus_vtable) : list sd_bus_vtable :=
  foldl (λ vtable item,
           let signalName := item.1 in
           let signalData := item.2 in
           push_back (createVTableSignalItem (c_str signalName)
                        (c_str (SignalData.signature_ signalData))) vtable)
        vtable (StdMap.iterate (signals_ interfaceData)).

Definition registerPropertiesToVTable (interfaceData : InterfaceData)
    (vtable : list sd_bus_vtable) : list sd_bus_vtable :=
  foldl (λ vtable item,
           let propertyName := item.1 in
           let propertyData := item.2 in
           if is_empty (PropertyData.setCallback_ propertyData)
           then push_back (createVTablePropertyItem (c_str propertyName)
                             (c_str (PropertyData.signature_ propertyData))
                             addr_sdbus_property_get_callback) vtable
           else push_back (createVTableWritablePropertyItem (c_str propertyName)
                             (c_str (PropertyData.signature_ propertyData))
                             addr_sdbus_property_get_callback
                             addr_sdbus_property_set_callback) vtable)
        vtable (StdMap.iterate (properties_ interfaceData)).

Definition createInterfaceVTable (interfaceData : InterfaceData)
    : Completion InterfaceData :=
  let vtable := vtable_ interfaceData in
  match vtable with
  | _ :: _ => Aborted
  | [] =>
      let vtable := push_back createVTableStartItem vtable in
      let vtable := registerMethodsToVTable interfaceData vtable in
      let vtable := registerSignalsToVTable interfaceData vtable in
      let vtable := registerPropertiesToVTable interfaceData vtable in
      let vtable := push_back createVTableEndItem vtable in
      Returned (with_vtable interfaceData vtable)
  end.

(** [slot_.reset(slot)] releases the slot owned so far through the deleter,
    which is an empty [std::function] until the assignment that follows:
    calling it throws [std::bad_function_call] inside [reset], which is
    [noexcept], so the program is terminated. *)
Definition activateInterfaceVTable (objectPath interfaceName : string)
    (interfaceData : InterfaceData) (vtable : list sd_bus_vtable)
    (connection : Connection) : Completion (Connection * InterfaceData) :=
  let '(slot, connection1) :=
    addObjectVTable objectPath interfaceName vtable connection in
  let activated :=
    with_slot interfaceData {| slot_ptr := Some slot; slot_deleter := true |} in
  match slot_ptr (slot_ interfaceData) with
  | None => Returned (connection1, activated)
  | Some old =>
      if slot_deleter (slot_ interfaceData)
      then Returned (removeObjectVTable old connection1, activated)
      else Aborted
  end.

Fixpoint finishRegistration_loop (objectPath : string)
    (items : list (string * InterfaceData))
    (connection : Connection) (interfaces : gmap string InterfaceData)
    : Completion (Connection * gmap string InterfaceData) :=
  match items with
  | [] => Returned (connection, interfaces)
  | item :: rest =>
      let interfaceName := item.1 in
      let interfaceData := item.2 in
      match createInterfaceVTable interfaceData with
      | Returned built =>
          match activateInterfaceVTable objectPath interfaceName built
                  (vtable_ built) connection with
          | Returned (connection1, activated) =>
              finishRegistration_loop objectPath rest connection1
                (StdMap.store interfaceName activated interfaces)
          | Propagated e => Propagated e
          | Aborted => Aborted
          end
      | Propagated e => Propagated e
      | Aborted => Aborted
      end
  end.

Definition finishRegistration (connection : Connection) (o : Object)
    : Completion (Connection * Object) :=
  match finishRegistration_loop (objectPath_ o) (StdMap.iterate (interfaces_ o))
          connection (interfaces_ o) with
  | Returned (connection1, interfaces1) =>
      Returned (connection1, with_interfaces o interfaces1)
  | Propagated e => Propagated e
  | Aborted => Aborted
  end.

(** ** The entry points called by sd-bus *)

Inductive CallbackKind := MethodCallback | GetCallback | SetCallback.

(** What an entry point does that the transport observes. *)
Inductive Effect :=
| Invoke (kind : CallbackKind)                 (* a user callback is called *)
| Populate (reply : Message)                   (* the getter has filled the reply *)
| Send (reply : Message)                       (* reply.send() *)
| ErrorSet (name message : string).            (* sd_bus_error_set(retError, ...) *)

Record Dispatched := {
  returnValue : Z;
  effects : list Effect;
  userData : Object
}.

(** [object->interfaces_[interface].methods_[member].callback_] (line 197) *)
Definition method_callback_lookup (interfaceName memberName : string)
    (object : Object) : method_callback * Object :=
  let '(interface, interfaces1) :=
    StdMap.subscript InterfaceData_default interfaceName (interfaces_ object) in
  let '(methodData, methods1) :=
    StdMap.subscript MethodData.default memberName (methods_ interface) in
  (MethodData.callback_ methodData,
   with_interfaces object
     (StdMap.store interfaceName (with_methods interface methods1) interfaces1)).

(** [object->interfaces_[interface].properties_[property]] (lines 229, 261) *)
Definition property_lookup (interfaceName propertyName : string)
    (object : Object) : PropertyData.t * Object :=
  let '(interface, interfaces1) :=
    StdMap.subscript InterfaceData_default interfaceName (interfaces_ object) in
  let '(propertyData, properties1) :=
    StdMap.subscript PropertyData.default propertyName (properties_ interface) in
  (propertyData,
   with_interfaces object
     (StdMap.store interfaceName (with_properties interface properties1) interfaces1)).

Definition property_get_callback_lookup (interfaceName propertyName : string)
    (object : Object) : property_get_callback * Object :=
  let '(propertyData, object1) := property_lookup interfaceName propertyName object in
  (PropertyData.getCallback_ propertyData, object1).

Definition property_set_callback_lookup (interfaceName propertyName : string)
    (object : Object) : property_set_callback * Object :=
  let '(propertyData, object1) := property_lookup interfaceName propertyName object in
  (PropertyData.setCallback_ propertyData, object1).

Definition sdbus_method_callback (sdbusMessage : Message) (userData : Object)
    : Completion Dispatched :=
  let message := sdbusMessage in
  let '(callback, object) :=
    method_callback_lookup (getInterfaceName message) (getMemberName message) userData in
  match callback with
  | None => Aborted
  | Some callback =>
      let reply := createReply message in
      match callback message reply with
      | Raise (sdbus_Error name msg) =>
          Returned {| returnValue := 1;
                      effects := [Invoke MethodCallback; ErrorSet (c_str name) (c_str msg)];
                      userData := object |}
      | Raise e => Propagated e
      | Done reply =>
          Returned {| returnValue := 1;
                      effects := [Invoke MethodCallback; Send reply];
                      userData := object |}
      end
  end.

Definition sdbus_property_get_callback (interface property : string)
    (sdbusReply : Message) (userData : Object) : Completion Dispatched :=
  let reply := sdbusReply in
  let '(callback, object) := property_get_callback_lookup interface property userData in
  match callback with
  | None =>
      Returned {| returnValue := 1;
                  effects := [ErrorSet "org.freedesktop.DBus.Error.Failed"
                                "Cannot read property as it is write-only"];
                  userData := object |}
  | Some callback =>
      match callback reply with
      | Raise (sdbus_Error name msg) =>
          Returned {| returnValue := 1;
                      effects := [Invoke GetCallback; ErrorSet (c_str name) (c_str msg)];
                      userData := object |}
      | Raise e => Propagated e
      | Done reply =>
          Returned {| returnValue := 1;
                      effects := [Invoke GetCallback; Populate reply];
                      userData := object |}
      end
  end.

Definition sdbus_property_set_callback (interface property : string)
    (sdbusValue : Message) (userData : Object) : Completion Dispatched :=
  let value := sdbusValue in
  let '(callback, object) := property_set_callback_lookup interface property userData in
  match callback with
  | None => Aborted
  | Some callback =>
      match callback value with
      | Raise (sdbus_Error name msg) =>
          Returned {| returnValue := 1;
                      effects := [Invoke SetCallback; ErrorSet (c_str name) (c_str msg)];
                      userData := object |}
      | Raise e => Propagated e
      | Done _ =>
          Returned {| returnValue := 1;
                      effects := [Invoke SetCallback];
                      userData := object |}
      end
  end.

(** ** Vocabulary used by the statements *)

(** The errors thrown by the registration calls, under the names the
    specification gives them. *)
Definition InvalidArgument_method : Error :=
  {| errMessage := "Invalid method callback provided"; errNo := EINVAL |}.
Definition InvalidArgument_property : Error :=
  {| errMessage := "Invalid property callbacks provided"; errNo := EINVAL |}.
Definition AlreadyExists_method : Error :=
  {| errMessage := "Failed to register method: method already exists"; errNo := EINVAL |}.
Definition AlreadyExists_signal : Error :=
  {| errMessage := "Failed to register signal: signal already exists"; errNo := EINVAL |}.
Definition AlreadyExists_property : Error :=
  {| errMessage := "Failed to register property: property already exists"; errNo := EINVAL |}.

(** The error a registration call ends with, if any. *)
Definition thrown {S} (r : Result S) : option Error :=
  match r with Ok _ => None | Throw e _ => Some e end.

(** The registered members of an interface, without its vtable and slot. *)
Definition members (d : InterfaceData)
  : gmap string MethodData.t * gmap string SignalData.t * gmap string PropertyData.t :=
  (methods_ d, signals_ d, properties_ d).

(** The registry of an object: the members of each of its interfaces. *)
Definition registry (o : Object)
  : gmap string (gmap string MethodData.t * gmap string SignalData.t
                 * gmap string PropertyData.t) :=
  members <$> interfaces_ o.

Definition registered_method (o : Object) (interfaceName memberName : string)
    (methodData : MethodData.t) : Prop :=
  ∃ d, interfaces_ o !! interfaceName = Some d
       ∧ methods_ d !! memberName = Some methodData.

Definition registered_signal (o : Object) (interfaceName memberName : string)
    (signalData : SignalData.t) : Prop :=
  ∃ d, interfaces_ o !! interfaceName = Some d
       ∧ signals_ d !! memberName = Some signalData.

Definition registered_property (o : Object) (interfaceName memberName : string)
    (propertyData : PropertyData.t) : Prop :=
  ∃ d, interfaces_ o !! interfaceName = Some d
       ∧ properties_ d !! memberName = Some propertyData.

(** The table entry that describes one member. *)
Definition method_entry (item : string * MethodData.t) : sd_bus_vtable :=
  VTableMethodItem (c_str item.1) (c_str (MethodData.inputArgs_ item.2))
    (c_str (MethodData.outputArgs_ item.2)) addr_sdbus_method_callback.

Definition signal_entry (item : string * SignalData.t) : sd_bus_vtable :=
  VTableSignalItem (c_str item.1) (c_str (SignalData.signature_ item.2)).

Definition is_writable_entry (e : sd_bus_vtable) : bool :=
  match e with VTableWritablePropertyItem _ _ _ _ => true | _ => false end.

Definition is_readonly_entry (e : sd_bus_vtable) : bool :=
  match e with VTablePropertyItem _ _ _ => true | _ => false end.

Definition entry_member (e : sd_bus_vtable) : option string :=
  match e with
  | VTableMethodItem n _ _ _ | VTableSignalItem n _
  | VTablePropertyItem n _ _ | VTableWritablePropertyItem n _ _ _ => Some n
  | VTableStartItem | VTableEndItem => None
  end.

Definition property_entry (item : string * PropertyData.t) : sd_bus_vtable :=
  if is_empty (PropertyData.setCallback_ item.2)
  then VTablePropertyItem (c_str item.1) (c_str (PropertyData.signature_ item.2))
         addr_sdbus_property_get_callback
  else VTableWritablePropertyItem (c_str item.1)
         (c_str (PropertyData.signature_ item.2))
         addr_sdbus_property_get_callback addr_sdbus_property_set_callback.

(** The table of an interface: start marker, methods, signals, properties (each
    group in the iteration order of its map), end marker. *)
Definition dispatch_table (d : InterfaceData) : list sd_bus_vtable :=
  [VTableStartItem]
  ++ (method_entry <$> StdMap.iterate (methods_ d))
  ++ (signal_entry <$> StdMap.iterate (signals_ d))
  ++ (property_entry <$> StdMap.iterate (properties_ d))
  ++ [VTableEndItem].

(** The interface data left by [finishRegistration] for an interface [d]. *)
Definition activated (d : InterfaceData) (slot : Slot) : InterfaceData :=
  with_slot (with_vtable d (dispatch_table d)) slot.

(** No vtable has been built and no slot is owned yet. *)
Definition unbuilt (o : Object) : Prop :=
  map_Forall (λ _ d, vtable_ d = [] ∧ slot_ptr (slot_ d) = None) (interfaces_ o).

(** The objects obtained from a new object by registration calls, whether
    they return or throw. *)
Inductive Registering : Object → Prop :=
| Registering_new path : Registering (createObject path)
| Registering_method i n a b cb o :
    Registering o → Registering (state_of (registerMethod i n a b cb o))
| Registering_signal i n sig o :
    Registering o → Registering (state_of (registerSignal i n sig o))
| Registering_property i n sig g s o :
    Registering o → Registering (state_of (registerProperty i n sig g s o)).

(** A property and the entry built for it: same name and signature, the two
    static handlers, and the writable shape exactly when a setter is bound. *)
Definition property_entry_of (item : string * PropertyData.t) (e : sd_bus_vtable) : Prop :=
  match e with
  | VTablePropertyItem n s g =>
      n = c_str item.1 ∧ s = c_str (PropertyData.signature_ item.2)
      ∧ g = addr_sdbus_property_get_callback
      ∧ PropertyData.setCallback_ item.2 = None
  | VTableWritablePropertyItem n s g st =>
      n = c_str item.1 ∧ s = c_str (PropertyData.signature_ item.2)
      ∧ g = addr_sdbus_property_get_callback
      ∧ st = addr_sdbus_property_set_callback
      ∧ PropertyData.setCallback_ item.2 ≠ None
  | _ => False
  end.

(** ** Sample objects *)

Module Sample.
Definition ifc : string := "com.example.Calc".

Definition call (member : string) (args : list Z) : Message :=
  {| msgType := eMethodCall; msgInterfaceName := ifc;
     msgMemberName := member; msgBody := args |}.

Definition plain (args : list Z) : Message :=
  {| msgType := ePlainMessage; msgInterfaceName := "";
     msgMemberName := ""; msgBody := args |}.

Definition answer (reply : Message) (body : list Z) : Message :=
  {| msgType := msgType reply; msgInterfaceName := msgInterfaceName reply;
     msgMemberName := msgMemberName reply; msgBody := body |}.

(** [Sum] replies with the sum of its arguments. *)
Definition sum : Message → Message → Invoked Message :=
  λ msg reply, Done (answer reply [foldr Z.add 0%Z (msgBody msg)]).

(** A callback raising a typed error. *)
Definition bad : Message → Message → Invoked Message :=
  λ _ _, Raise (sdbus_Error "com.example.Error.Bad" "bad input").

(** A callback raising a typed error whose name has an embedded NUL. *)
Definition odd_name : string := String "a" (String NUL "b").
Definition odd : Message → Message → Invoked Message :=
  λ _ _, Raise (sdbus_Error odd_name "bad input").

(** A callback raising something that is not an [sdbus::Error]. *)
Definition crash : Message → Message → Invoked Message :=
  λ _ _, Raise (other_exception "std::runtime_error").

Definition volume : Message → Invoked Message :=
  λ reply, Done (answer reply [7%Z]).

Definition store_value : Message → Invoked () := λ _, Done ().

Definition empty : Object := createObject "/calc".

Definition with_sum : Object :=
  state_of (registerMethod ifc "Sum" "ii" "i" (Some sum) empty).

Definition calc : Object :=
  let o := state_of (registerMethod ifc "Bad" "" "" (Some bad) with_sum) in
  let o := state_of (registerMethod ifc "Odd" "" "" (Some odd) o) in
  let o := state_of (registerMethod ifc "Crash" "" "" (Some crash) o) in
  let o := state_of (registerSignal ifc "Changed" "i" o) in
  let o := state_of (registerProperty ifc "Volume" "i" (Some volume) None o) in
  state_of (registerProperty ifc "Level" "i" None (Some store_value) o).

(** The state reached by [finishRegistration] on [o], or [o] itself. *)
Definition finalized (o : Object) : Connection * Object :=
  match finishRegistration Connection_initial o with
  | Returned s => s
  | _ => (Connection_initial, o)
  end.
End Sample.

(** ** Vocabulary of the further properties *)

(** The interface data that [interfaces_[i]] refers to: the entry of [i], or
    a default-constructed one when [i] has no entry yet. *)
Definition the_interface (o : Object) (i : string) : InterfaceData :=
  default InterfaceData_default (interfaces_ o !! i).

(** A registration call, as data. *)
Inductive Registration :=
| RegisterMethod (interfaceName methodName inputSignature outputSignature : string)
    (methodCallback : method_callback)
| RegisterSignal (interfaceName signalName signature : string)
| RegisterProperty (interfaceName propertyName signature : string)
    (getCallback : property_get_callback) (setCallback : property_set_callback).

Definition register (r : Registration) (o : Object) : Result Object :=
  match r with
  | RegisterMethod i n a b cb => registerMethod i n a b cb o
  | RegisterSignal i n sig => registerSignal i n sig o
  | RegisterProperty i n sig g s => registerProperty i n sig g s o
  end.

(** A sequence of registration calls, each made on the object left by the
    previous one (whether it returned or threw). *)
Definition register_all (rs : list Registration) (o : Object) : Object :=
  foldl (λ o r, state_of (register r o)) o rs.

(** The tables [finishRegistration] hands to the connection for the
    interfaces [items], the first of them under slot [first]. *)
Definition installations (objectPath : string) (first : nat)
    (items : list (string * InterfaceData))
  : list (nat * (string * string * list sd_bus_vtable)) :=
  imap (λ k item, (first + k, (objectPath, item.1, dispatch_table item.2))) items.

(** What the transport observes of a call of an entry point. *)
Definition observed (r : Completion Dispatched) : Completion (Z * list Effect) :=
  match r with
  | Returned d => Returned (returnValue d, effects d)
  | Propagated e => Propagated e
  | Aborted => Aborted
  end.

(** Whether the callbacks of a registration call pass its validation. *)
Definition accepted (r : Registration) : bool :=
  match r with
  | RegisterMethod _ _ _ _ cb => negb (is_empty cb)
  | RegisterSignal _ _ _ => true
  | RegisterProperty _ _ _ g s => negb (is_empty g && is_empty s)
  end.

Definition interface_of (r : Registration) : string :=
  match r with
  | RegisterMethod i _ _ _ _ | RegisterSignal i _ _ | RegisterProperty i _ _ _ _ => i
  end.

(** Interface [i] of [o] has, in the map [field], the entry [x] under [k]. *)
Definition registered_in {V} (field : InterfaceData → gmap string V)
    (o : Object) (i k : string) (x : V) : Prop :=
  ∃ d, interfaces_ o !! i = Some d ∧ field d !! k = Some x.

(** What an accepted registration call does to the entry of its interface. *)
Definition apply_registration (r : Registration) (d : InterfaceData) : InterfaceData :=
  match r with
  | RegisterMethod _ n a b cb =>
      with_methods d (StdMap.emplace n (MethodData.mk a b cb) (methods_ d)).1
  | RegisterSignal _ n sig =>
      with_signals d (StdMap.emplace n (SignalData.mk sig) (signals_ d)).1
  | RegisterProperty _ n sig g s =>
      with_properties d (StdMap.emplace n (PropertyData.mk sig g s) (properties_ d)).1
  end.

(** Whether the name of a registration call is already taken, in its
    category, in the interface entry [d]. *)
Definition taken (r : Registration) (d : InterfaceData) : bool :=
  match r with
  | RegisterMethod _ n _ _ _ => bool_decide (is_Some (methods_ d !! n))
  | RegisterSignal _ n _ => bool_decide (is_Some (signals_ d !! n))
  | RegisterProperty _ n _ _ _ => bool_decide (is_Some (properties_ d !! n))
  end.

(** The error a registration call throws when its callbacks are rejected
    (no callback is passed for a signal, which is never rejected), and the
    one it throws when its name is taken. *)
Definition rejection (r : Registration) : Error :=
  match r with
  | RegisterMethod _ _ _ _ _ | RegisterSignal _ _ _ => InvalidArgument_method
  | RegisterProperty _ _ _ _ _ => InvalidArgument_property
  end.

Definition collision (r : Registration) : Error :=
  match r with
  | RegisterMethod _ _ _ _ _ => AlreadyExists_method
  | RegisterSignal _ _ _ => AlreadyExists_signal
  | RegisterProperty _ _ _ _ _ => AlreadyExists_property
  end.

(** Two registration calls name the same member: same category, interface
    and name. *)
Definition same_member (r1 r2 : Registration) : Prop :=
  match r1, r2 with
  | RegisterMethod i n _ _ _, RegisterMethod i' n' _ _ _
  | RegisterSignal i n _, RegisterSignal i' n' _
  | RegisterProperty i n _ _ _, RegisterProperty i' n' _ _ _ => i = i' ∧ n = n'
  | _, _ => False
  end.

(** The object left by the evaluation of [interfaces_[i].methods_[n]] when
    interface [i] has no method [n]: a default-constructed descriptor is
    inserted under [n], in the entry of [i] (itself default-constructed if
    [i] had none). *)
Definition inserted_method (o : Object) (i n : string) : Object :=
  with_interfaces o
    (<[i := with_methods (the_interface o i)
              (<[n := MethodData.default]> (methods_ (the_interface o i)))]>
       (interfaces_ o)).

(** The same for [interfaces_[i].properties_[n]]. *)
Definition inserted_property (o : Object) (i n : string) : Object :=
  with_interfaces o
    (<[i := with_properties (the_interface o i)
              (<[n := PropertyData.default]> (properties_ (the_interface o i)))]>
       (interfaces_ o)).

(** * Properties *)

(** ** Strings *)

Lemma c_str_nul_free s : nul_free s = true → c_str s = s.
Proof.
  induction s as [|a s IH]; simpl; [done|].
  destruct (decide (a = NUL)); [done|]. intros H. by rewrite IH.
Qed.

Lemma c_str_idemp s : c_str (c_str s) = c_str s.
Proof.
  induction s as [|a s IH]; simpl; [done|].
  destruct (decide (a = NUL)) as [|Hne]; simpl; [done|].
  destruct (decide (a = NUL)); [done|]. by rewrite IH.
Qed.

(** ** The map operations *)

Section std_map_facts.
Context {V : Type}.
Implicit Types (m : gmap string V) (k : string) (v : V).

Lemma subscript_present dflt k m v :
  m !! k = Some v → StdMap.subscript dflt k m = (v, m).
Proof. unfold StdMap.subscript. by intros ->. Qed.

Lemma subscript_absent dflt k m :
  m !! k = None → StdMap.subscript dflt k m = (dflt, <[k := dflt]> m).
Proof. unfold StdMap.subscript. by intros ->. Qed.

Lemma subscript_lookup dflt k m :
  (StdMap.subscript dflt k m).2 !! k = Some (StdMap.subscript dflt k m).1.
Proof.
  unfold StdMap.subscript. destruct (m !! k) eqn:E; simpl; [done|].
  apply lookup_insert_eq.
Qed.

Lemma emplace_present k v m w :
  m !! k = Some w → StdMap.emplace k v m = (m, false).
Proof. unfold StdMap.emplace. by intros ->. Qed.

Lemma emplace_absent k v m :
  m !! k = None → StdMap.emplace k v m = (<[k := v]> m, true).
Proof. unfold StdMap.emplace. by intros ->. Qed.

Global Instance key_le_trans : Transitive (@StdMap.key_le V).
Proof. intros x y z. unfold StdMap.key_le. apply transitivity. Qed.

Global Instance key_le_total : Total (@StdMap.key_le V).
Proof. intros x y. unfold StdMap.key_le. apply total, _. Qed.

Global Instance key_le_dec : RelDecision (@StdMap.key_le V).
Proof. intros x y. unfold StdMap.key_le. apply _. Defined.

Lemma iterate_Permutation m : StdMap.iterate m ≡ₚ map_to_list m.
Proof. apply merge_sort_Permutation. Qed.

Lemma elem_of_iterate m k v : (k, v) ∈ StdMap.iterate m ↔ m !! k = Some v.
Proof. by rewrite iterate_Permutation, elem_of_map_to_list. Qed.

Lemma NoDup_iterate_keys m : NoDup (StdMap.iterate m).*1.
Proof. rewrite iterate_Permutation. apply NoDup_fst_map_to_list. Qed.

Lemma iterate_sorted m : StronglySorted StdMap.key_le (StdMap.iterate m).
Proof. apply StronglySorted_merge_sort; apply _. Qed.

Lemma length_iterate m : length (StdMap.iterate m) = size m.
Proof. by rewrite iterate_Permutation, length_map_to_list. Qed.

Lemma iterate_nil m : StdMap.iterate m = [] ↔ m = ∅.
Proof.
  rewrite <-map_to_list_empty_iff. split; intros H.
  - apply Permutation_nil_r. by rewrite <-iterate_Permutation, H.
  - apply Permutation_nil_r. by rewrite iterate_Permutation, H.
Qed.
End std_map_facts.

(** ** Records *)

Lemma with_methods_id d : with_methods d (methods_ d) = d.
Proof. by destruct d. Qed.
Lemma with_signals_id d : with_signals d (signals_ d) = d.
Proof. by destruct d. Qed.
Lemma with_properties_id d : with_properties d (properties_ d) = d.
Proof. by destruct d. Qed.
Lemma with_interfaces_id o : with_interfaces o (interfaces_ o) = o.
Proof. by destruct o. Qed.

Lemma registry_with_interfaces o m : registry (with_interfaces o m) = members <$> m.
Proof. done. Qed.

Lemma registry_lookup o i :
  registry o !! i = members <$> (interfaces_ o !! i).
Proof. unfold registry. apply lookup_fmap. Qed.

(** Writing an unchanged interface back leaves the object as it was. *)
Lemma store_back o i d :
  interfaces_ o !! i = Some d →
  with_interfaces o (StdMap.store i d (interfaces_ o)) = o.
Proof.
  intros H. unfold StdMap.store. rewrite insert_id by done. apply with_interfaces_id.
Qed.

(** ** Registration *)

Ltac access_interface o i :=
  let d := fresh "d" in
  let E := fresh "Hifc" in
  destruct (interfaces_ o !! i) as [d|] eqn:E;
  [ rewrite (subscript_present _ _ _ _ E)
  | rewrite (subscript_absent _ _ _ E) ].

Lemma registerMethod_duplicate i n a b f o md :
  registered_method o i n md →
  registerMethod i n a b (Some f) o = Throw AlreadyExists_method o.
Proof.
  intros (d & Hd & Hm). unfold registerMethod; simpl.
  rewrite (subscript_present _ _ _ _ Hd), (emplace_present _ _ _ _ Hm); simpl.
  by rewrite with_methods_id, store_back.
Qed.

Lemma registerSignal_duplicate i n sig o sd :
  registered_signal o i n sd →
  registerSignal i n sig o = Throw AlreadyExists_signal o.
Proof.
  intros (d & Hd & Hm). unfold registerSignal; simpl.
  rewrite (subscript_present _ _ _ _ Hd), (emplace_present _ _ _ _ Hm); simpl.
  by rewrite with_signals_id, store_back.
Qed.

Lemma registerProperty_duplicate i n sig g s o pd :
  is_empty g && is_empty s = false →
  registered_property o i n pd →
  registerProperty i n sig g s o = Throw AlreadyExists_property o.
Proof.
  intros Hv (d & Hd & Hm). unfold registerProperty. rewrite Hv.
  rewrite (subscript_present _ _ _ _ Hd), (emplace_present _ _ _ _ Hm); simpl.
  by rewrite with_properties_id, store_back.
Qed.

Lemma registerMethod_fresh i n a b f o :
  (∀ md, ¬ registered_method o i n md) →
  ∃ o', registerMethod i n a b (Some f) o = Ok o'
        ∧ registered_method o' i n (MethodData.mk a b (Some f)).
Proof.
  intros Hfresh. unfold registerMethod; simpl. access_interface o i.
  - destruct (methods_ d !! n) as [md|] eqn:Hm.
    { destruct (Hfresh md). by exists d. }
    rewrite (emplace_absent _ _ _ Hm); simpl. eexists; split; [done|].
    eexists; split; [apply lookup_insert_eq|]. apply lookup_insert_eq.
  - rewrite emplace_absent by apply lookup_empty. simpl. eexists; split; [done|].
    eexists; split; [apply lookup_insert_eq|]. apply lookup_insert_eq.
Qed.

Lemma registerSignal_fresh i n sig o :
  (∀ sd, ¬ registered_signal o i n sd) →
  ∃ o', registerSignal i n sig o = Ok o'
        ∧ registered_signal o' i n (SignalData.mk sig).
Proof.
  intros Hfresh. unfold registerSignal; simpl. access_interface o i.
  - destruct (signals_ d !! n) as [sd|] eqn:Hm.
    { destruct (Hfresh sd). by exists d. }
    rewrite (emplace_absent _ _ _ Hm); simpl. eexists; split; [done|].
    eexists; split; [apply lookup_insert_eq|]. apply lookup_insert_eq.
  - rewrite emplace_absent by apply lookup_empty. simpl. eexists; split; [done|].
    eexists; split; [apply lookup_insert_eq|]. apply lookup_insert_eq.
Qed.

Lemma registerProperty_fresh i n sig g s o :
  is_empty g && is_empty s = false →
  (∀ pd, ¬ registered_property o i n pd) →
  ∃ o', registerProperty i n sig g s o = Ok o'
        ∧ registered_property o' i n (PropertyData.mk sig g s).
Proof.
  intros Hv Hfresh. unfold registerProperty. rewrite Hv. access_interface o i.
  - destruct (properties_ d !! n) as [pd|] eqn:Hm.
    { destruct (Hfresh pd). by exists d. }
    rewrite (emplace_absent _ _ _ Hm); simpl. eexists; split; [done|].
    eexists; split; [apply lookup_insert_eq|]. apply lookup_insert_eq.
  - rewrite emplace_absent by apply lookup_empty. simpl. eexists; split; [done|].
    eexists; split; [apply lookup_insert_eq|]. apply lookup_insert_eq.
Qed.

(** C10. [registerMethod] called with an empty callback, and
    [registerProperty] called with both the getter and the setter empty (also
    through the getter-only overload), throw the invalid-argument error and
    hand back the object exactly as it was: the check precedes the access
    [interfaces_[interfaceName]], so no interface entry is created, whether
    or not the interface name was known. *)
Theorem empty_callbacks_are_rejected (o : Object) (i n a b sig : string) :
  registerMethod i n a b None o = Throw InvalidArgument_method o
  ∧ registerProperty i n sig None None o = Throw InvalidArgument_property o
  ∧ registerProperty_get i n sig None o = Throw InvalidArgument_property o
  ∧ interfaces_ (state_of (registerMethod i n a b None o)) !! i = interfaces_ o !! i
  ∧ interfaces_ (state_of (registerProperty i n sig None None o)) !! i
    = interfaces_ o !! i.
Proof. by repeat split. Qed.

(** C7, as amended. In every object the member names of each category of an
    interface are pairwise distinct. An attempt to register a member whose
    name is already taken in that category of that interface always throws and
    leaves the whole object unchanged; the error is the already-exists error
    when the callbacks passed are acceptable (always, for a signal) and the
    invalid-argument error when the method callback is empty or both
    property callbacks are. *)
Theorem duplicate_registration_fails (o : Object) (i n : string) (d : InterfaceData)
    (Hd : interfaces_ o !! i = Some d) :
  (NoDup (StdMap.iterate (methods_ d)).*1
   ∧ NoDup (StdMap.iterate (signals_ d)).*1
   ∧ NoDup (StdMap.iterate (properties_ d)).*1)
  ∧ (is_Some (methods_ d !! n) → ∀ a b cb,
       registerMethod i n a b cb o
       = Throw (if is_empty cb then InvalidArgument_method
                else AlreadyExists_method) o)
  ∧ (is_Some (signals_ d !! n) → ∀ sig,
       registerSignal i n sig o = Throw AlreadyExists_signal o)
  ∧ (is_Some (properties_ d !! n) → ∀ sig g s,
       registerProperty i n sig g s o
       = Throw (if is_empty g && is_empty s then InvalidArgument_property
                else AlreadyExists_property) o).
Proof.
  split; [auto using @NoDup_iterate_keys|]. split; [|split].
  - intros [md Hm] a b [f|]; [|done]. simpl.
    apply registerMethod_duplicate with md. by exists d.
  - intros [sd Hm] sig. apply registerSignal_duplicate with sd. by exists d.
  - intros [pd Hm] sig g s. destruct (is_empty g && is_empty s) eqn:Hv.
    + unfold registerProperty. by rewrite Hv.
    + apply registerProperty_duplicate with pd; [done|]. by exists d.
Qed.

Lemma duplicate_registration_fails_witness :
  registerMethod Sample.ifc "Sum" "ii" "i" (Some Sample.sum) Sample.with_sum
  = Throw AlreadyExists_method Sample.with_sum.
Proof.
  assert (Hd : interfaces_ Sample.with_sum !! Sample.ifc
               = Some (with_methods InterfaceData_default
                         {[ "Sum" := MethodData.mk "ii" "i" (Some Sample.sum) ]}))
    by (vm_compute; reflexivity).
  refine (proj1 (proj2 (duplicate_registration_fails _ _ "Sum" _ Hd)) _ "ii" "i"
            (Some Sample.sum)).
  vm_compute. eauto.
Defined.

(** C7 as stated fails: registering the existing method [Sum] again with an
    empty callback does not end with the already-exists error (it ends with
    the invalid-argument error). *)
Lemma duplicate_with_empty_callback :
  registered_method Sample.with_sum Sample.ifc "Sum"
    (MethodData.mk "ii" "i" (Some Sample.sum))
  ∧ registerMethod Sample.ifc "Sum" "ii" "i" None Sample.with_sum
    = Throw InvalidArgument_method Sample.with_sum
  ∧ registerMethod Sample.ifc "Sum" "ii" "i" None Sample.with_sum
    ≠ Throw AlreadyExists_method Sample.with_sum.
Proof.
  split; [|split].
  - eexists; split; vm_compute; reflexivity.
  - reflexivity.
  - intros H. inversion H.
Qed.

(** ** Building the table *)

Lemma foldl_push_back {A B} (g : B → A) (l : list B) (v : list A) :
  foldl (λ v x, push_back (g x) v) v l = v ++ (g <$> l).
Proof.
  revert v. induction l as [|x l IH]; intros v; simpl.
  - by rewrite app_nil_r.
  - rewrite IH. unfold push_back. by rewrite <-app_assoc.
Qed.

Lemma registerMethodsToVTable_app d v :
  registerMethodsToVTable d v = v ++ (method_entry <$> StdMap.iterate (methods_ d)).
Proof. unfold registerMethodsToVTable. apply (foldl_push_back method_entry). Qed.

Lemma registerSignalsToVTable_app d v :
  registerSignalsToVTable d v = v ++ (signal_entry <$> StdMap.iterate (signals_ d)).
Proof. unfold registerSignalsToVTable. apply (foldl_push_back signal_entry). Qed.

Lemma registerPropertiesToVTable_app d v :
  registerPropertiesToVTable d v
  = v ++ (property_entry <$> StdMap.iterate (properties_ d)).
Proof.
  unfold registerPropertiesToVTable.
  rewrite <-(foldl_push_back property_entry). revert v.
  induction (StdMap.iterate (properties_ d)) as [|x l IH]; intros v; simpl; [done|].
  rewrite <-IH. f_equal. unfold property_entry.
  by destruct (is_empty (PropertyData.setCallback_ x.2)).
Qed.

Lemma property_entry_correct item : property_entry_of item (property_entry item).
Proof.
  unfold property_entry.
  destruct (PropertyData.setCallback_ item.2) eqn:E; simpl; by rewrite ?E.
Qed.

Lemma createInterfaceVTable_fresh d :
  vtable_ d = [] →
  createInterfaceVTable d = Returned (with_vtable d (dispatch_table d)).
Proof.
  intros H. unfold createInterfaceVTable. rewrite H.
  rewrite registerPropertiesToVTable_app, registerSignalsToVTable_app,
    registerMethodsToVTable_app.
  unfold push_back, dispatch_table, createVTableStartItem, createVTableEndItem.
  by rewrite <-!app_assoc.
Qed.

Lemma createInterfaceVTable_built d :
  vtable_ d ≠ [] → createInterfaceVTable d = Aborted.
Proof. unfold createInterfaceVTable. by destruct (vtable_ d). Qed.

Lemma createInterfaceVTable_Returned d built :
  createInterfaceVTable d = Returned built →
  vtable_ d = [] ∧ built = with_vtable d (dispatch_table d).
Proof.
  intros H. destruct (vtable_ d) eqn:E.
  - rewrite (createInterfaceVTable_fresh _ E) in H. by inversion H.
  - rewrite createInterfaceVTable_built in H by (by rewrite E). done.
Qed.

Lemma activateInterfaceVTable_Returned path i d v c c' d' :
  activateInterfaceVTable path i d v c = Returned (c', d') →
  d' = with_slot d {| slot_ptr := Some (nextSlot_ c); slot_deleter := true |}.
Proof.
  unfold activateInterfaceVTable. simpl.
  destruct (slot_ptr (slot_ d)); [destruct (slot_deleter (slot_ d))|];
    by intros [= <- <-].
Qed.

(** ** Finishing the registration *)

Lemma finishRegistration_loop_Returned path items :
  ∀ c m c' m',
    NoDup items.*1 →
    finishRegistration_loop path items c m = Returned (c', m') →
    (∀ k d, (k, d) ∈ items →
       vtable_ d = [] ∧ ∃ slot, m' !! k = Some (activated d slot))
    ∧ (∀ k, k ∉ items.*1 → m' !! k = m !! k).
Proof.
  induction items as [|[k0 d0] rest IH]; intros c m c' m' Hnd Hloop; simpl in *.
  - inversion Hloop; subst. split; [|done]. intros k d Hin. by apply elem_of_nil in Hin.
  - apply NoDup_cons in Hnd as [Hk0 Hnd].
    destruct (createInterfaceVTable d0) as [built| |] eqn:Hbuilt; try done.
    apply createInterfaceVTable_Returned in Hbuilt as [Hempty ->].
    destruct (activateInterfaceVTable _ _ _ _ _) as [[c1 d1]| |] eqn:Hact; try done.
    apply activateInterfaceVTable_Returned in Hact as ->.
    destruct (IH _ _ _ _ Hnd Hloop) as [Hin Hout]. split.
    + intros k d [[= -> ->]|Hrest]%elem_of_cons; [|by apply Hin].
      split; [done|]. eexists. rewrite (Hout _ Hk0). apply lookup_insert_eq.
    + intros k [Hne Hk]%not_elem_of_cons. rewrite (Hout _ Hk).
      unfold StdMap.store. by rewrite lookup_insert_ne.
Qed.

Lemma finishRegistration_Returned c o c' o' :
  finishRegistration c o = Returned (c', o') →
  objectPath_ o' = objectPath_ o
  ∧ ∀ i, match interfaces_ o !! i with
         | Some d => vtable_ d = []
                     ∧ ∃ slot, interfaces_ o' !! i = Some (activated d slot)
         | None => interfaces_ o' !! i = None
         end.
Proof.
  unfold finishRegistration.
  destruct (finishRegistration_loop _ _ _ _) as [[c1 m1]| |] eqn:Hloop; try done.
  intros [= <- <-]. split; [done|]. intros i.
  apply finishRegistration_loop_Returned in Hloop as [Hin Hout];
    [|apply NoDup_iterate_keys].
  destruct (interfaces_ o !! i) as [d|] eqn:Hd; simpl.
  - apply Hin. by apply elem_of_iterate.
  - rewrite Hout, Hd; [done|]. intros [[k d] [-> Hkd]]%list_elem_of_fmap.
    apply elem_of_iterate in Hkd. simpl in *. congruence.
Qed.

Lemma finishRegistration_registry c o c' o' :
  finishRegistration c o = Returned (c', o') → registry o' = registry o.
Proof.
  intros [_ H]%finishRegistration_Returned. apply map_eq; intros i.
  rewrite !registry_lookup. specialize (H i).
  destruct (interfaces_ o !! i) as [d|].
  - by destruct H as [_ [slot ->]].
  - by rewrite H.
Qed.

(** A built table is never empty: it starts with the start marker. *)
Lemma dispatch_table_nonempty d : dispatch_table d ≠ [].
Proof. done. Qed.

Lemma finishRegistration_loop_built path k d rest c m :
  vtable_ d ≠ [] → finishRegistration_loop path ((k, d) :: rest) c m = Aborted.
Proof. intros H. simpl. by rewrite createInterfaceVTable_built. Qed.

Lemma elem_of_dispatch_table d e :
  e ∈ dispatch_table d ↔
    e = VTableStartItem ∨ e = VTableEndItem
    ∨ (∃ n md, methods_ d !! n = Some md ∧ e = method_entry (n, md))
    ∨ (∃ n sd, signals_ d !! n = Some sd ∧ e = signal_entry (n, sd))
    ∨ (∃ n pd, properties_ d !! n = Some pd ∧ e = property_entry (n, pd)).
Proof.
  unfold dispatch_table.
  rewrite !elem_of_app, !list_elem_of_fmap, !list_elem_of_singleton.
  split.
  - intros [->|[([n md] & -> & H)|[([n sd] & -> & H)|[([n pd] & -> & H)| ->]]]];
      try apply elem_of_iterate in H; naive_solver.
  - intros [->|[->|[(n & md & H & ->)|[(n & sd & H & ->)|(n & pd & H & ->)]]]];
      try apply elem_of_iterate in H; naive_solver.
Qed.

Lemma length_dispatch_table d :
  length (dispatch_table d)
  = 2 + size (methods_ d) + size (signals_ d) + size (properties_ d).
Proof.
  unfold dispatch_table. rewrite !length_app, !length_fmap, !length_iterate.
  simpl. lia.
Qed.

Lemma finishRegistration_vtable c c' o o' i d' :
  finishRegistration c o = Returned (c', o') →
  interfaces_ o' !! i = Some d' →
  vtable_ d' = dispatch_table d'
  ∧ ∃ d, interfaces_ o !! i = Some d ∧ members d' = members d.
Proof.
  intros [_ H]%finishRegistration_Returned Hd'. specialize (H i).
  destruct (interfaces_ o !! i) as [d|]; [|congruence].
  destruct H as [Hempty [slot Hact]]. rewrite Hd' in Hact. injection Hact as ->.
  split; [done|]. by exists d.
Qed.

Lemma finishRegistration_loop_returns path items :
  ∀ c m,
    Forall (λ item, vtable_ item.2 = [] ∧ slot_ptr (slot_ item.2) = None) items →
    ∃ c' m', finishRegistration_loop path items c m = Returned (c', m').
Proof.
  induction items as [|[k d] rest IH]; intros c m Hitems; simpl; [eauto|].
  apply Forall_cons in Hitems as [[Hempty Hslot] Hrest]. simpl in *.
  rewrite (createInterfaceVTable_fresh _ Hempty).
  unfold activateInterfaceVTable; simpl. rewrite Hslot. by apply IH.
Qed.

Lemma finishRegistration_returns c o :
  unbuilt o → ∃ c' o', finishRegistration c o = Returned (c', o').
Proof.
  intros Hun. unfold finishRegistration.
  destruct (finishRegistration_loop_returns (objectPath_ o)
              (StdMap.iterate (interfaces_ o)) c (interfaces_ o)) as (c' & m' & ->);
    [|eauto].
  apply Forall_forall. intros [k d] Hkd%elem_of_iterate.
  apply (map_Forall_lookup_1 _ _ _ _ Hun Hkd).
Qed.

(** Registration calls build no vtable and take no slot. *)
Lemma unbuilt_store o i d m :
  map_Forall (λ _ d, vtable_ d = [] ∧ slot_ptr (slot_ d) = None) m →
  vtable_ d = [] ∧ slot_ptr (slot_ d) = None →
  unbuilt (with_interfaces o (StdMap.store i d m)).
Proof. intros Hm Hd. unfold unbuilt, StdMap.store; simpl. by apply map_Forall_insert_2. Qed.

Lemma unbuilt_subscript i (m : gmap string InterfaceData) :
  map_Forall (λ _ d, vtable_ d = [] ∧ slot_ptr (slot_ d) = None) m →
  (vtable_ (StdMap.subscript InterfaceData_default i m).1 = []
   ∧ slot_ptr (slot_ (StdMap.subscript InterfaceData_default i m).1) = None)
  ∧ map_Forall (λ _ d, vtable_ d = [] ∧ slot_ptr (slot_ d) = None)
      (StdMap.subscript InterfaceData_default i m).2.
Proof.
  intros Hm. unfold StdMap.subscript. destruct (m !! i) as [d|] eqn:Hd; simpl.
  - split; [|done]. apply (map_Forall_lookup_1 _ _ _ _ Hm Hd).
  - split; [done|]. by apply map_Forall_insert_2.
Qed.

Lemma Registering_unbuilt o : Registering o → unbuilt o.
Proof.
  induction 1 as [path|i n a b cb o _ IH|i n sig o _ IH|i n sig g s o _ IH].
  - apply map_Forall_empty.
  - unfold registerMethod. destruct (is_empty cb); [done|].
    destruct (unbuilt_subscript i _ IH) as [Hd Hm].
    destruct (StdMap.subscript _ _ _) as [d m1]. simpl in *.
    destruct (StdMap.emplace _ _ _) as [methods1 []]; simpl;
      by apply unbuilt_store.
  - unfold registerSignal.
    destruct (unbuilt_subscript i _ IH) as [Hd Hm].
    destruct (StdMap.subscript _ _ _) as [d m1]. simpl in *.
    destruct (StdMap.emplace _ _ _) as [signals1 []]; simpl;
      by apply unbuilt_store.
  - unfold registerProperty. destruct (is_empty g && is_empty s); [done|].
    destruct (unbuilt_subscript i _ IH) as [Hd Hm].
    destruct (StdMap.subscript _ _ _) as [d m1]. simpl in *.
    destruct (StdMap.emplace _ _ _) as [properties1 []]; simpl;
      by apply unbuilt_store.
Qed.

(** C5. On an object for which no vtable has been built yet (such as any
    object obtained from a new one by registration calls),
    [finishRegistration] returns and leaves the registry as it was; the
    vtable of every interface is then the start marker, one entry per
    registered method in the iteration order of the method map, one entry
    per signal, one entry per property, and the end marker. Within each
    group the names visited are pairwise distinct, the table has as many
    entries as there are members plus the two markers, and it contains
    nothing but the markers and the entries of registered members. *)
Theorem vtable_after_finishRegistration (c : Connection) (o : Object)
    (Hunbuilt : unbuilt o) :
  ∃ c' o',
    finishRegistration c o = Returned (c', o')
    ∧ registry o' = registry o
    ∧ ∀ i d', interfaces_ o' !! i = Some d' →
        vtable_ d'
        = [VTableStartItem]
          ++ (method_entry <$> StdMap.iterate (methods_ d'))
          ++ (signal_entry <$> StdMap.iterate (signals_ d'))
          ++ (property_entry <$> StdMap.iterate (properties_ d'))
          ++ [VTableEndItem]
        ∧ (NoDup (StdMap.iterate (methods_ d')).*1
           ∧ NoDup (StdMap.iterate (signals_ d')).*1
           ∧ NoDup (StdMap.iterate (properties_ d')).*1)
        ∧ length (vtable_ d')
          = 2 + size (methods_ d') + size (signals_ d') + size (properties_ d')
        ∧ (∀ e, e ∈ vtable_ d' ↔
             e = VTableStartItem ∨ e = VTableEndItem
             ∨ (∃ n md, methods_ d' !! n = Some md ∧ e = method_entry (n, md))
             ∨ (∃ n sd, signals_ d' !! n = Some sd ∧ e = signal_entry (n, sd))
             ∨ (∃ n pd, properties_ d' !! n = Some pd ∧ e = property_entry (n, pd))).
Proof.
  destruct (finishRegistration_returns c o Hunbuilt) as (c' & o' & Hfinish).
  exists c', o'. split; [done|].
  split; [by apply finishRegistration_registry in Hfinish|].
  intros i d' Hd'.
  destruct (finishRegistration_vtable _ _ _ _ _ _ Hfinish Hd') as [Htable _].
  rewrite Htable. split; [done|].
  split; [auto using @NoDup_iterate_keys|].
  split; [apply length_dispatch_table|]. intros e. apply elem_of_dispatch_table.
Qed.

Lemma vtable_after_finishRegistration_witness :
  ∃ c' o',
    finishRegistration Connection_initial Sample.calc = Returned (c', o')
    ∧ vtable_ (default InterfaceData_default (interfaces_ o' !! Sample.ifc))
      = [VTableStartItem;
         VTableMethodItem "Bad" "" "" addr_sdbus_method_callback;
         VTableMethodItem "Crash" "" "" addr_sdbus_method_callback;
         VTableMethodItem "Odd" "" "" addr_sdbus_method_callback;
         VTableMethodItem "Sum" "ii" "i" addr_sdbus_method_callback;
         VTableSignalItem "Changed" "i";
         VTableWritablePropertyItem "Level" "i" addr_sdbus_property_get_callback
           addr_sdbus_property_set_callback;
         VTablePropertyItem "Volume" "i" addr_sdbus_property_get_callback;
         VTableEndItem].
Proof.
  assert (Hunbuilt : unbuilt Sample.calc)
    by (apply Registering_unbuilt; repeat constructor).
  destruct (vtable_after_finishRegistration Connection_initial Sample.calc Hunbuilt)
    as (c' & o' & Hfinish & Hreg & Htables).
  exists c', o'. split; [done|].
  assert (Hsome : is_Some (interfaces_ o' !! Sample.ifc)).
  { apply (f_equal (λ r, r !! Sample.ifc)) in Hreg. rewrite !registry_lookup in Hreg.
    destruct (interfaces_ o' !! Sample.ifc); [eauto|]. vm_compute in Hreg. done. }
  destruct Hsome as [d' Hd']. rewrite Hd'. simpl.
  destruct (Htables _ _ Hd') as [-> _].
  apply (f_equal (λ r, r !! Sample.ifc)) in Hreg. rewrite !registry_lookup, Hd' in Hreg.
  destruct d' as [ms ss ps vt sl]. simpl.
  vm_compute in Hreg. injection Hreg as -> -> ->. by vm_compute.
Defined.

(** C6. [registerPropertiesToVTable] appends one entry per registered
    property, in iteration order; the entry of a property has the writable
    shape if and only if the property has a setter and the read-only shape
    if and only if it has none. Hence every writable entry of a vtable built
    by [createInterfaceVTable] belongs to a registered property that has a
    setter. *)
Theorem property_entry_shape (d : InterfaceData) (v : list sd_bus_vtable) :
  (∃ entries,
     registerPropertiesToVTable d v = v ++ entries
     ∧ Forall2 (λ item e,
          property_entry_of item e
          ∧ (is_writable_entry e = true ↔ PropertyData.setCallback_ item.2 ≠ None)
          ∧ (is_readonly_entry e = true ↔ PropertyData.setCallback_ item.2 = None))
         (StdMap.iterate (properties_ d)) entries)
  ∧ (∀ built e,
       createInterfaceVTable d = Returned built →
       e ∈ vtable_ built → is_writable_entry e = true →
       ∃ n pd, properties_ d !! n = Some pd
               ∧ entry_member e = Some (c_str n)
               ∧ PropertyData.setCallback_ pd ≠ None).
Proof.
  split.
  - exists (property_entry <$> StdMap.iterate (properties_ d)).
    split; [apply registerPropertiesToVTable_app|].
    apply Forall2_fmap_r, Forall_Forall2_diag, Forall_forall. intros item _.
    split; [apply property_entry_correct|]. unfold property_entry.
    destruct (PropertyData.setCallback_ item.2); simpl; split; split; done.
  - intros built e [_ ->]%createInterfaceVTable_Returned He Hw. simpl in He.
    apply elem_of_dispatch_table in He.
    destruct He as [->|[->|[(n & md & H & ->)|[(n & sd & H & ->)|(n & pd & H & ->)]]]];
      try done.
    exists n, pd. split; [done|]. unfold property_entry in *. simpl in *.
    by destruct (PropertyData.setCallback_ pd).
Qed.

Lemma property_entry_shape_witness :
  ∃ n pd, properties_ (default InterfaceData_default
                         (interfaces_ Sample.calc !! Sample.ifc)) !! n = Some pd
          ∧ Some "Level" = Some (c_str n)
          ∧ PropertyData.setCallback_ pd ≠ None.
Proof.
  refine (proj2 (property_entry_shape _ []) _
            (VTableWritablePropertyItem "Level" "i"
               addr_sdbus_property_get_callback
               addr_sdbus_property_set_callback) _ _ _).
  - vm_compute. reflexivity.
  - vm_compute. do 6 right. left.
  - reflexivity.
Defined.

(** ** Registration only reads and writes the registry *)

Lemma registry_store o i d m :
  registry (with_interfaces o (StdMap.store i d m)) = <[i := members d]> (members <$> m).
Proof. unfold registry, StdMap.store. simpl. apply fmap_insert. Qed.

Lemma registerMethod_on_registry i n a b f o :
  let ms := default (members InterfaceData_default) (registry o !! i) in
  let r := StdMap.emplace n (MethodData.mk a b (Some f)) ms.1.1 in
  registry (state_of (registerMethod i n a b (Some f) o))
  = <[i := (r.1, ms.1.2, ms.2)]> (registry o)
  ∧ thrown (registerMethod i n a b (Some f) o)
    = if r.2 then None else Some AlreadyExists_method.
Proof.
  rewrite registry_lookup. unfold registerMethod; simpl.
  access_interface o i; simpl;
    destruct (StdMap.emplace _ _ _) as [m1 []]; simpl;
    rewrite registry_store, ?fmap_insert, ?insert_insert_eq; done.
Qed.

Lemma registerSignal_on_registry i n sig o :
  let ms := default (members InterfaceData_default) (registry o !! i) in
  let r := StdMap.emplace n (SignalData.mk sig) ms.1.2 in
  registry (state_of (registerSignal i n sig o))
  = <[i := (ms.1.1, r.1, ms.2)]> (registry o)
  ∧ thrown (registerSignal i n sig o)
    = if r.2 then None else Some AlreadyExists_signal.
Proof.
  rewrite registry_lookup. unfold registerSignal; simpl.
  access_interface o i; simpl;
    destruct (StdMap.emplace _ _ _) as [m1 []]; simpl;
    rewrite registry_store, ?fmap_insert, ?insert_insert_eq; done.
Qed.

Lemma registerProperty_on_registry i n sig g s o :
  is_empty g && is_empty s = false →
  let ms := default (members InterfaceData_default) (registry o !! i) in
  let r := StdMap.emplace n (PropertyData.mk sig g s) ms.2 in
  registry (state_of (registerProperty i n sig g s o))
  = <[i := (ms.1.1, ms.1.2, r.1)]> (registry o)
  ∧ thrown (registerProperty i n sig g s o)
    = if r.2 then None else Some AlreadyExists_property.
Proof.
  intros Hv. rewrite registry_lookup. unfold registerProperty; rewrite Hv; simpl.
  access_interface o i; simpl;
    destruct (StdMap.emplace _ _ _) as [m1 []]; simpl;
    rewrite registry_store, ?fmap_insert, ?insert_insert_eq; done.
Qed.

(** The outcome of a registration call and the registry it leaves depend on
    the registry alone, not on the vtables or slots. *)
Lemma registerMethod_registry i n a b cb o1 o2 :
  registry o1 = registry o2 →
  thrown (registerMethod i n a b cb o1) = thrown (registerMethod i n a b cb o2)
  ∧ registry (state_of (registerMethod i n a b cb o1))
    = registry (state_of (registerMethod i n a b cb o2)).
Proof.
  intros H. destruct cb as [f|]; [|done].
  destruct (registerMethod_on_registry i n a b f o1) as [-> ->].
  destruct (registerMethod_on_registry i n a b f o2) as [-> ->].
  by rewrite H.
Qed.

Lemma registerSignal_registry i n sig o1 o2 :
  registry o1 = registry o2 →
  thrown (registerSignal i n sig o1) = thrown (registerSignal i n sig o2)
  ∧ registry (state_of (registerSignal i n sig o1))
    = registry (state_of (registerSignal i n sig o2)).
Proof.
  intros H.
  destruct (registerSignal_on_registry i n sig o1) as [-> ->].
  destruct (registerSignal_on_registry i n sig o2) as [-> ->].
  by rewrite H.
Qed.

Lemma registerProperty_registry i n sig g s o1 o2 :
  registry o1 = registry o2 →
  thrown (registerProperty i n sig g s o1) = thrown (registerProperty i n sig g s o2)
  ∧ registry (state_of (registerProperty i n sig g s o1))
    = registry (state_of (registerProperty i n sig g s o2)).
Proof.
  intros H. destruct (is_empty g && is_empty s) eqn:Hv.
  { unfold registerProperty. by rewrite Hv. }
  destruct (registerProperty_on_registry i n sig g s o1 Hv) as [-> ->].
  destruct (registerProperty_on_registry i n sig g s o2 Hv) as [-> ->].
  by rewrite H.
Qed.

(** C1, as amended. The registration calls do not look at whether
    [finishRegistration] has run: on the object it leaves, a call with an
    acceptable callback and a member name not yet taken returns normally and
    the member is registered afterwards, and every call ends the same way
    (same error or none) and leaves the same registry as the same call made
    on the object before [finishRegistration]. *)
Theorem registration_after_finishRegistration (c c' : Connection) (o o' : Object)
    (i n : string)
    (Hfinish : finishRegistration c o = Returned (c', o')) :
  (∀ a b f, (∀ md, ¬ registered_method o' i n md) →
     ∃ o'', registerMethod i n a b (Some f) o' = Ok o''
            ∧ registered_method o'' i n (MethodData.mk a b (Some f)))
  ∧ (∀ sig, (∀ sd, ¬ registered_signal o' i n sd) →
       ∃ o'', registerSignal i n sig o' = Ok o''
              ∧ registered_signal o'' i n (SignalData.mk sig))
  ∧ (∀ sig g s, is_empty g && is_empty s = false →
       (∀ pd, ¬ registered_property o' i n pd) →
       ∃ o'', registerProperty i n sig g s o' = Ok o''
              ∧ registered_property o'' i n (PropertyData.mk sig g s))
  ∧ (∀ a b cb,
       thrown (registerMethod i n a b cb o') = thrown (registerMethod i n a b cb o)
       ∧ registry (state_of (registerMethod i n a b cb o'))
         = registry (state_of (registerMethod i n a b cb o)))
  ∧ (∀ sig,
       thrown (registerSignal i n sig o') = thrown (registerSignal i n sig o)
       ∧ registry (state_of (registerSignal i n sig o'))
         = registry (state_of (registerSignal i n sig o)))
  ∧ (∀ sig g s,
       thrown (registerProperty i n sig g s o') = thrown (registerProperty i n sig g s o)
       ∧ registry (state_of (registerProperty i n sig g s o'))
         = registry (state_of (registerProperty i n sig g s o))).
Proof.
  apply finishRegistration_registry in Hfinish.
  repeat split;
    auto using registerMethod_fresh, registerSignal_fresh, registerProperty_fresh;
    intros; by (apply registerMethod_registry || apply registerSignal_registry
                || apply registerProperty_registry).
Qed.

Lemma registration_after_finishRegistration_witness :
  ∃ o'', registerMethod Sample.ifc "Mul" "ii" "i" (Some Sample.sum)
           (Sample.finalized Sample.with_sum).2 = Ok o''
         ∧ registered_method o'' Sample.ifc "Mul"
             (MethodData.mk "ii" "i" (Some Sample.sum)).
Proof.
  assert (Hfinish : finishRegistration Connection_initial Sample.with_sum
                    = Returned ((Sample.finalized Sample.with_sum).1,
                                (Sample.finalized Sample.with_sum).2))
    by (vm_compute; reflexivity).
  apply (proj1 (registration_after_finishRegistration _ _ _ _ Sample.ifc "Mul" Hfinish)).
  intros md (d & Hd & Hm). vm_compute in Hd. injection Hd as <-.
  vm_compute in Hm. discriminate Hm.
Defined.

(** C1 as stated fails: after [finishRegistration] has returned on an object
    exposing [Sum], registering [Mul] returns normally and changes the
    registry. *)
Lemma registerMethod_after_finishRegistration_succeeds :
  finishRegistration Connection_initial Sample.with_sum
  = Returned (Sample.finalized Sample.with_sum)
  ∧ ∃ o'', registerMethod Sample.ifc "Mul" "ii" "i" (Some Sample.sum)
             (Sample.finalized Sample.with_sum).2 = Ok o''
           ∧ registry o'' ≠ registry (Sample.finalized Sample.with_sum).2
           ∧ registered_method o'' Sample.ifc "Mul"
               (MethodData.mk "ii" "i" (Some Sample.sum)).
Proof.
  split; [by vm_compute|]. eexists. split; [by vm_compute|]. split.
  - intros H. apply (f_equal (λ r, (default (members InterfaceData_default)
                                      (r !! Sample.ifc)).1.1 !! "Mul")) in H.
    vm_compute in H. discriminate H.
  - eexists. split; by vm_compute.
Qed.

(** ** Calling [finishRegistration] again *)

Lemma finishRegistration_no_interfaces c o :
  interfaces_ o = ∅ → finishRegistration c o = Returned (c, o).
Proof.
  intros H. unfold finishRegistration.
  assert (StdMap.iterate (interfaces_ o) = []) as -> by by apply iterate_nil.
  simpl. by rewrite with_interfaces_id.
Qed.

Lemma finishRegistration_built c o i d :
  interfaces_ o !! i = Some d → (∀ j d', interfaces_ o !! j = Some d' → vtable_ d' ≠ []) →
  finishRegistration c o = Aborted.
Proof.
  intros Hi Hbuilt. unfold finishRegistration.
  destruct (StdMap.iterate (interfaces_ o)) as [|[k dk] rest] eqn:Hit.
  - apply iterate_nil in Hit. rewrite Hit, lookup_empty in Hi. done.
  - rewrite finishRegistration_loop_built; [done|].
    apply (Hbuilt k), elem_of_iterate. rewrite Hit. apply list_elem_of_here.
Qed.

(** C8, as amended. No error is thrown for a second [finishRegistration]:
    building the vtable of an interface whose vtable is already built fails
    the assertion [assert(vtable.empty())], so a second call on an object that
    has at least one interface aborts, and a second call on an object without
    interfaces returns normally and changes nothing. *)
Theorem second_finishRegistration (c c' c'' : Connection) (o o' : Object)
    (Hfinish : finishRegistration c o = Returned (c', o')) :
  (∀ d, vtable_ d ≠ [] → createInterfaceVTable d = Aborted)
  ∧ (interfaces_ o ≠ ∅ → finishRegistration c'' o' = Aborted)
  ∧ (interfaces_ o = ∅ → finishRegistration c'' o' = Returned (c'', o')).
Proof.
  split; [apply createInterfaceVTable_built|].
  apply finishRegistration_Returned in Hfinish as [_ H]. split.
  - intros [i [d Hd]]%map_choose. pose proof (H i) as Hi. rewrite Hd in Hi.
    destruct Hi as [_ [slot Hi]].
    apply finishRegistration_built with i (activated d slot); [done|].
    intros j d' Hj. specialize (H j). destruct (interfaces_ o !! j) as [dj|].
    + destruct H as [_ [slot' H]]. rewrite Hj in H. by injection H as ->.
    + congruence.
  - intros Hempty. apply finishRegistration_no_interfaces.
    apply map_empty; intros i. specialize (H i).
    by rewrite Hempty, lookup_empty in H.
Qed.

Lemma second_finishRegistration_witness :
  finishRegistration (Sample.finalized Sample.calc).1 (Sample.finalized Sample.calc).2
  = Aborted.
Proof.
  assert (Hfinish : finishRegistration Connection_initial Sample.calc
                    = Returned ((Sample.finalized Sample.calc).1,
                                (Sample.finalized Sample.calc).2))
    by (vm_compute; reflexivity).
  apply (proj1 (proj2 (second_finishRegistration _ _ _ _ _ Hfinish))).
  intros H. apply (f_equal (λ m, m !! Sample.ifc)) in H.
  vm_compute in H. discriminate H.
Defined.

(** C8 as stated fails: on an object without interfaces a second
    [finishRegistration] returns normally, as the first did. *)
Lemma finishRegistration_twice_returns :
  finishRegistration Connection_initial Sample.empty
  = Returned (Connection_initial, Sample.empty)
  ∧ finishRegistration Connection_initial Sample.empty
    = Returned (Sample.finalized Sample.empty)
  ∧ finishRegistration (Sample.finalized Sample.empty).1
      (Sample.finalized Sample.empty).2
    = Returned (Connection_initial, Sample.empty).
Proof. repeat split; by vm_compute. Qed.

(** ** Lookups made by the entry points *)

Lemma method_callback_lookup_registered o i n md :
  registered_method o i n md →
  method_callback_lookup i n o = (MethodData.callback_ md, o).
Proof.
  intros (d & Hd & Hm). unfold method_callback_lookup.
  rewrite (subscript_present _ _ _ _ Hd), (subscript_present _ _ _ _ Hm).
  by rewrite with_methods_id, store_back.
Qed.

Lemma property_lookup_registered o i n pd :
  registered_property o i n pd → property_lookup i n o = (pd, o).
Proof.
  intros (d & Hd & Hm). unfold property_lookup.
  rewrite (subscript_present _ _ _ _ Hd), (subscript_present _ _ _ _ Hm).
  by rewrite with_properties_id, store_back.
Qed.

Lemma method_callback_lookup_inserts o i n :
  (∀ md, ¬ registered_method o i n md) →
  (method_callback_lookup i n o).1 = None
  ∧ registered_method (method_callback_lookup i n o).2 i n MethodData.default.
Proof.
  intros Hfresh. unfold method_callback_lookup. access_interface o i.
  - destruct (methods_ d !! n) as [md|] eqn:Hm.
    { destruct (Hfresh md). by exists d. }
    rewrite (subscript_absent _ _ _ Hm). simpl. split; [done|].
    eexists; split; apply lookup_insert_eq.
  - rewrite subscript_absent by apply lookup_empty. simpl. split; [done|].
    eexists; split; apply lookup_insert_eq.
Qed.

Lemma property_lookup_inserts o i n :
  (∀ pd, ¬ registered_property o i n pd) →
  (property_lookup i n o).1 = PropertyData.default
  ∧ registered_property (property_lookup i n o).2 i n PropertyData.default.
Proof.
  intros Hfresh. unfold property_lookup. access_interface o i.
  - destruct (properties_ d !! n) as [pd|] eqn:Hm.
    { destruct (Hfresh pd). by exists d. }
    rewrite (subscript_absent _ _ _ Hm). simpl. split; [done|].
    eexists; split; apply lookup_insert_eq.
  - rewrite subscript_absent by apply lookup_empty. simpl. split; [done|].
    eexists; split; apply lookup_insert_eq.
Qed.

Lemma property_get_callback_lookup_eq i n o :
  property_get_callback_lookup i n o
  = (PropertyData.getCallback_ (property_lookup i n o).1, (property_lookup i n o).2).
Proof. unfold property_get_callback_lookup. by destruct (property_lookup i n o). Qed.

Lemma property_set_callback_lookup_eq i n o :
  property_set_callback_lookup i n o
  = (PropertyData.setCallback_ (property_lookup i n o).1, (property_lookup i n o).2).
Proof. unfold property_set_callback_lookup. by destruct (property_lookup i n o). Qed.

(** ** The entry points *)

Lemma property_lookup_cases o i n :
  (∃ pd, registered_property o i n pd ∧ property_lookup i n o = (pd, o))
  ∨ ((∀ pd, ¬ registered_property o i n pd)
     ∧ (property_lookup i n o).1 = PropertyData.default).
Proof.
  destruct (interfaces_ o !! i) as [d|] eqn:Hd;
    [destruct (properties_ d !! n) as [pd|] eqn:Hp|].
  - left. exists pd. assert (registered_property o i n pd) by by exists d.
    split; [done|]. by apply property_lookup_registered.
  - right. assert (∀ pd, ¬ registered_property o i n pd) as Hfresh.
    { intros pd (d' & Hd' & Hp'). congruence. }
    split; [done|]. by apply property_lookup_inserts.
  - right. assert (∀ pd, ¬ registered_property o i n pd) as Hfresh.
    { intros pd (d' & Hd' & Hp'). congruence. }
    split; [done|]. by apply property_lookup_inserts.
Qed.

Lemma sdbus_method_callback_registered o msg md f :
  registered_method o (getInterfaceName msg) (getMemberName msg) md →
  MethodData.callback_ md = Some f →
  sdbus_method_callback msg o
  = match f msg (createReply msg) with
    | Done reply =>
        Returned {| returnValue := 1;
                    effects := [Invoke MethodCallback; Send reply];
                    userData := o |}
    | Raise (sdbus_Error name message) =>
        Returned {| returnValue := 1;
                    effects := [Invoke MethodCallback;
                                ErrorSet (c_str name) (c_str message)];
                    userData := o |}
    | Raise (other_exception what) => Propagated (other_exception what)
    end.
Proof.
  intros Hreg Hcb. unfold sdbus_method_callback.
  rewrite (method_callback_lookup_registered _ _ _ _ Hreg), Hcb.
  by destruct (f msg (createReply msg)) as [reply|[name message|what]].
Qed.

Lemma sdbus_property_get_callback_registered o i n reply pd :
  registered_property o i n pd →
  sdbus_property_get_callback i n reply o
  = match PropertyData.getCallback_ pd with
    | None =>
        Returned {| returnValue := 1;
                    effects := [ErrorSet "org.freedesktop.DBus.Error.Failed"
                                  "Cannot read property as it is write-only"];
                    userData := o |}
    | Some f =>
        match f reply with
        | Done reply =>
            Returned {| returnValue := 1;
                        effects := [Invoke GetCallback; Populate reply];
                        userData := o |}
        | Raise (sdbus_Error name message) =>
            Returned {| returnValue := 1;
                        effects := [Invoke GetCallback;
                                    ErrorSet (c_str name) (c_str message)];
                        userData := o |}
        | Raise (other_exception what) => Propagated (other_exception what)
        end
    end.
Proof.
  intros Hreg. unfold sdbus_property_get_callback.
  rewrite property_get_callback_lookup_eq, (property_lookup_registered _ _ _ _ Hreg).
  simpl. destruct (PropertyData.getCallback_ pd) as [f|]; [|done].
  by destruct (f reply) as [reply'|[name message|what]].
Qed.

Lemma sdbus_property_set_callback_registered o i n value pd f :
  registered_property o i n pd →
  PropertyData.setCallback_ pd = Some f →
  sdbus_property_set_callback i n value o
  = match f value with
    | Done _ =>
        Returned {| returnValue := 1; effects := [Invoke SetCallback];
                    userData := o |}
    | Raise (sdbus_Error name message) =>
        Returned {| returnValue := 1;
                    effects := [Invoke SetCallback;
                                ErrorSet (c_str name) (c_str message)];
                    userData := o |}
    | Raise (other_exception what) => Propagated (other_exception what)
    end.
Proof.
  intros Hreg Hcb. unfold sdbus_property_set_callback.
  rewrite property_set_callback_lookup_eq, (property_lookup_registered _ _ _ _ Hreg).
  simpl. rewrite Hcb.
  by destruct (f value) as [[]|[name message|what]].
Qed.

(** C4. A get dispatched on a registered property that has no getter returns
    1 to the transport after a single effect: the error
    [org.freedesktop.DBus.Error.Failed] with the message
    "Cannot read property as it is write-only" is set. No callback is invoked,
    no reply is populated or sent, and the object is left unchanged. *)
Theorem write_only_property_get (o : Object) (i n : string) (reply : Message)
    (pd : PropertyData.t)
    (Hreg : registered_property o i n pd)
    (Hget : PropertyData.getCallback_ pd = None) :
  sdbus_property_get_callback i n reply o
  = Returned {| returnValue := 1;
                effects := [ErrorSet "org.freedesktop.DBus.Error.Failed"
                              "Cannot read property as it is write-only"];
                userData := o |}.
Proof. by rewrite (sdbus_property_get_callback_registered _ _ _ _ _ Hreg), Hget. Qed.

Lemma write_only_property_get_witness :
  sdbus_property_get_callback Sample.ifc "Level" (Sample.plain []) Sample.calc
  = Returned {| returnValue := 1;
                effects := [ErrorSet "org.freedesktop.DBus.Error.Failed"
                              "Cannot read property as it is write-only"];
                userData := Sample.calc |}.
Proof.
  apply (write_only_property_get Sample.calc Sample.ifc "Level" (Sample.plain [])
           (PropertyData.mk "i" None (Some Sample.store_value))).
  - eexists; split; by vm_compute.
  - reflexivity.
Defined.

(** C3, as amended. A method call dispatched on a registered method with a
    bound callback returns 1; if the callback completes normally the reply it
    filled is sent; if it raises an [sdbus::Error] carrying name N and message
    M, no reply is sent and the error set on the transport carries the C
    strings of N and M, which are N and M themselves when neither contains a
    NUL character. The object is unchanged in both cases. *)
Theorem method_call_outcome (o : Object) (msg : Message) (md : MethodData.t)
    (f : Message → Message → Invoked Message)
    (Hreg : registered_method o (getInterfaceName msg) (getMemberName msg) md)
    (Hcb : MethodData.callback_ md = Some f) :
  (∀ reply, f msg (createReply msg) = Done reply →
     sdbus_method_callback msg o
     = Returned {| returnValue := 1;
                   effects := [Invoke MethodCallback; Send reply];
                   userData := o |})
  ∧ (∀ N M, f msg (createReply msg) = Raise (sdbus_Error N M) →
       sdbus_method_callback msg o
       = Returned {| returnValue := 1;
                     effects := [Invoke MethodCallback; ErrorSet (c_str N) (c_str M)];
                     userData := o |}
       ∧ (nul_free N = true → nul_free M = true →
            sdbus_method_callback msg o
            = Returned {| returnValue := 1;
                          effects := [Invoke MethodCallback; ErrorSet N M];
                          userData := o |})).
Proof.
  rewrite (sdbus_method_callback_registered _ _ _ _ Hreg Hcb). split.
  - by intros reply ->.
  - intros N M ->. split; [done|]. intros HN HM.
    by rewrite (c_str_nul_free _ HN), (c_str_nul_free _ HM).
Qed.

Lemma method_call_outcome_witness :
  sdbus_method_callback (Sample.call "Sum" [2; 3]%Z) Sample.calc
  = Returned {| returnValue := 1;
                effects := [Invoke MethodCallback;
                            Send (Sample.answer
                                    (createReply (Sample.call "Sum" [2; 3]%Z)) [5%Z])];
                userData := Sample.calc |}
  ∧ sdbus_method_callback (Sample.call "Bad" []) Sample.calc
    = Returned {| returnValue := 1;
                  effects := [Invoke MethodCallback;
                              ErrorSet "com.example.Error.Bad" "bad input"];
                  userData := Sample.calc |}.
Proof.
  split.
  - apply (proj1 (method_call_outcome Sample.calc (Sample.call "Sum" [2; 3]%Z)
                    (MethodData.mk "ii" "i" (Some Sample.sum)) Sample.sum
                    ltac:(eexists; split; by vm_compute) eq_refl)).
    reflexivity.
  - apply (proj2 (method_call_outcome Sample.calc (Sample.call "Bad" [])
                    (MethodData.mk "" "" (Some Sample.bad)) Sample.bad
                    ltac:(eexists; split; by vm_compute) eq_refl)
             "com.example.Error.Bad" "bad input" eq_refl);
      reflexivity.
Defined.

(** C3 as stated fails: the callback of [Odd] raises an [sdbus::Error] whose
    name has an embedded NUL; the error set on the transport carries the
    name cut at the NUL, not the name itself. *)
Lemma error_name_cut_at_NUL :
  registered_method Sample.calc Sample.ifc "Odd" (MethodData.mk "" "" (Some Sample.odd))
  ∧ Sample.odd (Sample.call "Odd" []) (createReply (Sample.call "Odd" []))
    = Raise (sdbus_Error Sample.odd_name "bad input")
  ∧ sdbus_method_callback (Sample.call "Odd" []) Sample.calc
    = Returned {| returnValue := 1;
                  effects := [Invoke MethodCallback; ErrorSet "a" "bad input"];
                  userData := Sample.calc |}
  ∧ sdbus_method_callback (Sample.call "Odd" []) Sample.calc
    ≠ Returned {| returnValue := 1;
                  effects := [Invoke MethodCallback;
                              ErrorSet Sample.odd_name "bad input"];
                  userData := Sample.calc |}.
Proof.
  assert (Hreg : registered_method Sample.calc Sample.ifc "Odd"
                   (MethodData.mk "" "" (Some Sample.odd)))
    by (eexists; split; by vm_compute).
  split; [done|]. split; [done|].
  rewrite (sdbus_method_callback_registered _ (Sample.call "Odd" []) _ _ Hreg eq_refl).
  split; [done|]. simpl. intros H. inversion H.
Qed.

(** C2, as amended. Each entry point returns 1 to the transport whenever the
    callback it reaches completes normally or raises an [sdbus::Error]: a
    method call on a registered method with a bound callback, a property set
    on a registered property with a bound setter, and a property get on any
    interface and property name (a missing getter is reported as an error).
    An exception of any other type raised by the callback is not caught: it
    leaves the entry point. *)
Theorem entry_points_return (o : Object) :
  (∀ msg md f,
     registered_method o (getInterfaceName msg) (getMemberName msg) md →
     MethodData.callback_ md = Some f →
     (∀ what, f msg (createReply msg) ≠ Raise (other_exception what)) →
     ∃ r, sdbus_method_callback msg o = Returned r ∧ returnValue r = 1%Z)
  ∧ (∀ i n reply,
       (∀ pd f what, registered_property o i n pd →
          PropertyData.getCallback_ pd = Some f →
          f reply ≠ Raise (other_exception what)) →
       ∃ r, sdbus_property_get_callback i n reply o = Returned r
            ∧ returnValue r = 1%Z)
  ∧ (∀ i n value pd f,
       registered_property o i n pd →
       PropertyData.setCallback_ pd = Some f →
       (∀ what, f value ≠ Raise (other_exception what)) →
       ∃ r, sdbus_property_set_callback i n value o = Returned r
            ∧ returnValue r = 1%Z)
  ∧ (∀ msg md f what,
       registered_method o (getInterfaceName msg) (getMemberName msg) md →
       MethodData.callback_ md = Some f →
       f msg (createReply msg) = Raise (other_exception what) →
       sdbus_method_callback msg o = Propagated (other_exception what))
  ∧ (∀ i n reply pd f what,
       registered_property o i n pd →
       PropertyData.getCallback_ pd = Some f →
       f reply = Raise (other_exception what) →
       sdbus_property_get_callback i n reply o = Propagated (other_exception what))
  ∧ (∀ i n value pd f what,
       registered_property o i n pd →
       PropertyData.setCallback_ pd = Some f →
       f value = Raise (other_exception what) →
       sdbus_property_set_callback i n value o = Propagated (other_exception what)).
Proof.
  repeat split.
  - intros msg md f Hreg Hcb Htyped.
    rewrite (sdbus_method_callback_registered _ _ _ _ Hreg Hcb).
    destruct (f msg (createReply msg)) as [reply|[name message|what]]; eauto.
    by destruct (Htyped what).
  - intros i n reply Htyped.
    destruct (property_lookup_cases o i n) as [(pd & Hreg & _)|[_ Hdefault]].
    + rewrite (sdbus_property_get_callback_registered _ _ _ _ _ Hreg).
      destruct (PropertyData.getCallback_ pd) as [f|] eqn:Hcb; [|eauto].
      specialize (Htyped pd f).
      destruct (f reply) as [reply'|[name message|what]]; eauto.
      by destruct (Htyped what).
    + unfold sdbus_property_get_callback.
      rewrite property_get_callback_lookup_eq, Hdefault. simpl. eauto.
  - intros i n value pd f Hreg Hcb Htyped.
    rewrite (sdbus_property_set_callback_registered _ _ _ _ _ _ Hreg Hcb).
    destruct (f value) as [[]|[name message|what]]; eauto.
    by destruct (Htyped what).
  - intros msg md f what Hreg Hcb Hraise.
    by rewrite (sdbus_method_callback_registered _ _ _ _ Hreg Hcb), Hraise.
  - intros i n reply pd f what Hreg Hcb Hraise.
    by rewrite (sdbus_property_get_callback_registered _ _ _ _ _ Hreg), Hcb, Hraise.
  - intros i n value pd f what Hreg Hcb Hraise.
    by rewrite (sdbus_property_set_callback_registered _ _ _ _ _ _ Hreg Hcb), Hraise.
Qed.

Lemma entry_points_return_witness :
  (∃ r, sdbus_method_callback (Sample.call "Bad" []) Sample.calc = Returned r
        ∧ returnValue r = 1%Z)
  ∧ (∃ r, sdbus_property_set_callback Sample.ifc "Level" (Sample.plain [9%Z])
            Sample.calc = Returned r
          ∧ returnValue r = 1%Z).
Proof.
  split.
  - apply (proj1 (entry_points_return Sample.calc) (Sample.call "Bad" [])
             (MethodData.mk "" "" (Some Sample.bad)) Sample.bad).
    + eexists; split; by vm_compute.
    + reflexivity.
    + intros what H. discriminate H.
  - apply (proj1 (proj2 (proj2 (entry_points_return Sample.calc)))
             Sample.ifc "Level" (Sample.plain [9%Z])
             (PropertyData.mk "i" None (Some Sample.store_value)) Sample.store_value).
    + eexists; split; by vm_compute.
    + reflexivity.
    + intros what H. discriminate H.
Defined.

(** C2 as stated fails: the callback of [Crash] raises an exception that is
    not an [sdbus::Error], and the exception leaves [sdbus_method_callback]. *)
Lemma foreign_exception_propagates :
  registered_method Sample.calc Sample.ifc "Crash"
    (MethodData.mk "" "" (Some Sample.crash))
  ∧ sdbus_method_callback (Sample.call "Crash" []) Sample.calc
    = Propagated (other_exception "std::runtime_error")
  ∧ ¬ ∃ r, sdbus_method_callback (Sample.call "Crash" []) Sample.calc = Returned r.
Proof.
  assert (Hreg : registered_method Sample.calc Sample.ifc "Crash"
                   (MethodData.mk "" "" (Some Sample.crash)))
    by (eexists; split; by vm_compute).
  split; [done|].
  rewrite (sdbus_method_callback_registered _ (Sample.call "Crash" []) _ _ Hreg eq_refl).
  split; [done|]. by intros [r H].
Qed.

(** * Further properties of the registry *)

(** ** What a registration call leaves *)

Lemma emplace_lookup {V} (k k' : string) (v : V) (m : gmap string V) :
  (StdMap.emplace k v m).1 !! k'
  = match m !! k' with
    | Some w => Some w
    | None => if decide (k' = k) then Some v else None
    end.
Proof.
  unfold StdMap.emplace. destruct (m !! k) as [w|] eqn:Hk; simpl.
  - destruct (m !! k') eqn:Hk'; [done|]. case_decide; [congruence|done].
  - rewrite lookup_insert. case_decide as Heq.
    + subst. rewrite Hk. by rewrite decide_True.
    + destruct (m !! k'); [done|]. by rewrite decide_False.
Qed.

Lemma emplace_inserted {V} (k : string) (v : V) (m : gmap string V) :
  (StdMap.emplace k v m).2 = bool_decide (m !! k = None).
Proof. unfold StdMap.emplace. by destruct (m !! k). Qed.

Lemma the_interface_lookup o i d :
  interfaces_ o !! i = Some d → the_interface o i = d.
Proof. unfold the_interface. by intros ->. Qed.

Lemma registerMethod_state i n a b f o :
  state_of (registerMethod i n a b (Some f) o)
  = with_interfaces o
      (<[i := with_methods (the_interface o i)
                (StdMap.emplace n (MethodData.mk a b (Some f))
                   (methods_ (the_interface o i))).1]> (interfaces_ o)).
Proof.
  unfold registerMethod, the_interface; simpl.
  access_interface o i; simpl;
    destruct (StdMap.emplace _ _ _) as [m1 []]; simpl;
    unfold StdMap.store; by rewrite ?insert_insert_eq.
Qed.

Lemma registerSignal_state i n sig o :
  state_of (registerSignal i n sig o)
  = with_interfaces o
      (<[i := with_signals (the_interface o i)
                (StdMap.emplace n (SignalData.mk sig)
                   (signals_ (the_interface o i))).1]> (interfaces_ o)).
Proof.
  unfold registerSignal, the_interface; simpl.
  access_interface o i; simpl;
    destruct (StdMap.emplace _ _ _) as [m1 []]; simpl;
    unfold StdMap.store; by rewrite ?insert_insert_eq.
Qed.

Lemma registerProperty_state i n sig g s o :
  is_empty g && is_empty s = false →
  state_of (registerProperty i n sig g s o)
  = with_interfaces o
      (<[i := with_properties (the_interface o i)
                (StdMap.emplace n (PropertyData.mk sig g s)
                   (properties_ (the_interface o i))).1]> (interfaces_ o)).
Proof.
  intros Hv. unfold registerProperty, the_interface; rewrite Hv; simpl.
  access_interface o i; simpl;
    destruct (StdMap.emplace _ _ _) as [m1 []]; simpl;
    unfold StdMap.store; by rewrite ?insert_insert_eq.
Qed.

(** A registration call that returns has inserted its descriptor. *)
Lemma registerMethod_Ok i n a b cb o o' :
  registerMethod i n a b cb o = Ok o' →
  registered_method o' i n (MethodData.mk a b cb)
  ∧ (∀ md, ¬ registered_method o i n md) ∧ is_empty cb = false.
Proof.
  unfold registerMethod. destruct cb as [f|]; [|done]. simpl.
  access_interface o i.
  - destruct (methods_ d !! n) as [md|] eqn:Hm.
    { by rewrite (emplace_present _ _ _ _ Hm). }
    rewrite (emplace_absent _ _ _ Hm). simpl. intros [= <-]. split; [|split; [|done]].
    + eexists; split; apply lookup_insert_eq.
    + intros md (d' & Hd' & Hm'). congruence.
  - rewrite emplace_absent by apply lookup_empty. simpl. intros [= <-].
    split; [|split; [|done]].
    + eexists; split; apply lookup_insert_eq.
    + intros md (d' & Hd' & Hm'). congruence.
Qed.

Lemma registerSignal_Ok i n sig o o' :
  registerSignal i n sig o = Ok o' →
  registered_signal o' i n (SignalData.mk sig)
  ∧ (∀ sd, ¬ registered_signal o i n sd).
Proof.
  unfold registerSignal. access_interface o i.
  - destruct (signals_ d !! n) as [sd|] eqn:Hm.
    { by rewrite (emplace_present _ _ _ _ Hm). }
    rewrite (emplace_absent _ _ _ Hm). simpl. intros [= <-]. split.
    + eexists; split; apply lookup_insert_eq.
    + intros sd (d' & Hd' & Hm'). congruence.
  - rewrite emplace_absent by apply lookup_empty. simpl. intros [= <-]. split.
    + eexists; split; apply lookup_insert_eq.
    + intros sd (d' & Hd' & Hm'). congruence.
Qed.

Lemma registerProperty_Ok i n sig g s o o' :
  registerProperty i n sig g s o = Ok o' →
  registered_property o' i n (PropertyData.mk sig g s)
  ∧ (∀ pd, ¬ registered_property o i n pd)
  ∧ is_empty g && is_empty s = false.
Proof.
  unfold registerProperty. destruct (is_empty g && is_empty s); [done|].
  access_interface o i.
  - destruct (properties_ d !! n) as [pd|] eqn:Hm.
    { by rewrite (emplace_present _ _ _ _ Hm). }
    rewrite (emplace_absent _ _ _ Hm). simpl. intros [= <-]. split; [|split; [|done]].
    + eexists; split; apply lookup_insert_eq.
    + intros pd (d' & Hd' & Hm'). congruence.
  - rewrite emplace_absent by apply lookup_empty. simpl. intros [= <-].
    split; [|split; [|done]].
    + eexists; split; apply lookup_insert_eq.
    + intros pd (d' & Hd' & Hm'). congruence.
Qed.

(** ** From registration to dispatch *)

Lemma method_lookup_cases o i n :
  (∃ md, registered_method o i n md
         ∧ method_callback_lookup i n o = (MethodData.callback_ md, o))
  ∨ ((∀ md, ¬ registered_method o i n md)
     ∧ (method_callback_lookup i n o).1 = None).
Proof.
  destruct (interfaces_ o !! i) as [d|] eqn:Hd;
    [destruct (methods_ d !! n) as [md|] eqn:Hm|].
  - left. exists md. assert (registered_method o i n md) by by exists d.
    split; [done|]. by apply method_callback_lookup_registered.
  - right. assert (∀ md, ¬ registered_method o i n md) as Hfresh.
    { intros md (d' & Hd' & Hm'). congruence. }
    split; [done|]. by apply method_callback_lookup_inserts.
  - right. assert (∀ md, ¬ registered_method o i n md) as Hfresh.
    { intros md (d' & Hd' & Hm'). congruence. }
    split; [done|]. by apply method_callback_lookup_inserts.
Qed.

Lemma registered_method_unique o i n md md' :
  registered_method o i n md → registered_method o i n md' → md = md'.
Proof. intros (d & Hd & Hm) (d' & Hd' & Hm'). congruence. Qed.

Lemma registered_property_unique o i n pd pd' :
  registered_property o i n pd → registered_property o i n pd' → pd = pd'.
Proof. intros (d & Hd & Hm) (d' & Hd' & Hm'). congruence. Qed.

(** X1. When [registerMethod] returns, a method call dispatched afterwards
    for that interface and member runs the callback that was passed, and
    nothing else decides the outcome: its reply is sent, or its
    [sdbus::Error] is set on the transport, or its foreign exception leaves
    the entry point. A later attempt to register the same member with
    another callback throws the already-exists error and does not replace
    the callback. *)
Theorem registered_method_is_dispatched (o o' : Object) (i n a b : string)
    (cb : method_callback) (msg : Message)
    (Hreg : registerMethod i n a b cb o = Ok o')
    (Hi : getInterfaceName msg = i) (Hn : getMemberName msg = n) :
  ∃ f, cb = Some f
    ∧ sdbus_method_callback msg o'
      = match f msg (createReply msg) with
        | Done reply =>
            Returned {| returnValue := 1;
                        effects := [Invoke MethodCallback; Send reply];
                        userData := o' |}
        | Raise (sdbus_Error name message) =>
            Returned {| returnValue := 1;
                        effects := [Invoke MethodCallback;
                                    ErrorSet (c_str name) (c_str message)];
                        userData := o' |}
        | Raise (other_exception what) => Propagated (other_exception what)
        end
    ∧ ∀ a' b' f',
        registerMethod i n a' b' (Some f') o' = Throw AlreadyExists_method o'
        ∧ method_callback_lookup i n
            (state_of (registerMethod i n a' b' (Some f') o')) = (Some f, o').
Proof.
  apply registerMethod_Ok in Hreg as (Hreg & _ & Hcb).
  destruct cb as [f|]; [|done]. exists f. split; [done|]. subst i n. split.
  - by apply (sdbus_method_callback_registered _ _ _ _ Hreg).
  - intros a' b' f'.
    rewrite (registerMethod_duplicate _ _ a' b' f' _ _ Hreg). split; [done|].
    simpl. by rewrite (method_callback_lookup_registered _ _ _ _ Hreg).
Qed.

Lemma registered_method_is_dispatched_witness :
  ∃ f, Some Sample.sum = Some f
    ∧ sdbus_method_callback (Sample.call "Sum" [2; 3]%Z) Sample.with_sum
      = match f (Sample.call "Sum" [2; 3]%Z)
                (createReply (Sample.call "Sum" [2; 3]%Z)) with
        | Done reply =>
            Returned {| returnValue := 1;
                        effects := [Invoke MethodCallback; Send reply];
                        userData := Sample.with_sum |}
        | Raise (sdbus_Error name message) =>
            Returned {| returnValue := 1;
                        effects := [Invoke MethodCallback;
                                    ErrorSet (c_str name) (c_str message)];
                        userData := Sample.with_sum |}
        | Raise (other_exception what) => Propagated (other_exception what)
        end
    ∧ ∀ a' b' f',
        registerMethod Sample.ifc "Sum" a' b' (Some f') Sample.with_sum
        = Throw AlreadyExists_method Sample.with_sum
        ∧ method_callback_lookup Sample.ifc "Sum"
            (state_of (registerMethod Sample.ifc "Sum" a' b' (Some f') Sample.with_sum))
          = (Some f, Sample.with_sum).
Proof.
  apply (registered_method_is_dispatched Sample.empty Sample.with_sum
           Sample.ifc "Sum" "ii" "i" (Some Sample.sum) (Sample.call "Sum" [2; 3]%Z)).
  - vm_compute. reflexivity.
  - reflexivity.
  - reflexivity.
Defined.

Lemma sdbus_property_set_callback_unbound o i n value :
  (∀ pd, registered_property o i n pd → PropertyData.setCallback_ pd = None) →
  sdbus_property_set_callback i n value o = Aborted.
Proof.
  intros Hunbound. unfold sdbus_property_set_callback.
  rewrite property_set_callback_lookup_eq.
  destruct (property_lookup_cases o i n) as [(pd & Hreg & ->)|[_ ->]]; simpl.
  - by rewrite (Hunbound _ Hreg).
  - done.
Qed.

Lemma sdbus_method_callback_unbound o msg :
  (∀ md, registered_method o (getInterfaceName msg) (getMemberName msg) md →
         MethodData.callback_ md = None) →
  sdbus_method_callback msg o = Aborted.
Proof.
  intros Hunbound. unfold sdbus_method_callback.
  destruct (method_lookup_cases o (getInterfaceName msg) (getMemberName msg))
    as [(md & Hreg & ->)|[_ Hnone]].
  - by rewrite (Hunbound _ Hreg).
  - destruct (method_callback_lookup _ _ _) as [cb o1]. simpl in Hnone. by subst.
Qed.

(** X2. When [registerProperty] returns, a get dispatched afterwards for that
    property runs the getter that was passed (or, if none was passed, sets
    the write-only error without running anything), and a set runs the
    setter that was passed; a set dispatched for a property registered
    without a setter fails [assert(callback)]. *)
Theorem registered_property_is_dispatched (o o' : Object) (i n sig : string)
    (g : property_get_callback) (s : property_set_callback)
    (Hreg : registerProperty i n sig g s o = Ok o') :
  (∀ reply,
     sdbus_property_get_callback i n reply o'
     = match g with
       | None =>
           Returned {| returnValue := 1;
                       effects := [ErrorSet "org.freedesktop.DBus.Error.Failed"
                                     "Cannot read property as it is write-only"];
                       userData := o' |}
       | Some f =>
           match f reply with
           | Done reply =>
               Returned {| returnValue := 1;
                           effects := [Invoke GetCallback; Populate reply];
                           userData := o' |}
           | Raise (sdbus_Error name message) =>
               Returned {| returnValue := 1;
                           effects := [Invoke GetCallback;
                                       ErrorSet (c_str name) (c_str message)];
                           userData := o' |}
           | Raise (other_exception what) => Propagated (other_exception what)
           end
       end)
  ∧ (∀ value,
       sdbus_property_set_callback i n value o'
       = match s with
         | None => Aborted
         | Some f =>
             match f value with
             | Done _ =>
                 Returned {| returnValue := 1; effects := [Invoke SetCallback];
                             userData := o' |}
             | Raise (sdbus_Error name message) =>
                 Returned {| returnValue := 1;
                             effects := [Invoke SetCallback;
                                         ErrorSet (c_str name) (c_str message)];
                             userData := o' |}
             | Raise (other_exception what) => Propagated (other_exception what)
             end
         end).
Proof.
  apply registerProperty_Ok in Hreg as (Hreg & _ & _). split.
  - intros reply. by rewrite (sdbus_property_get_callback_registered _ _ _ _ _ Hreg).
  - intros value. destruct s as [f|].
    + by rewrite (sdbus_property_set_callback_registered _ _ _ _ _ f Hreg).
    + apply sdbus_property_set_callback_unbound. intros pd Hpd.
      by rewrite (registered_property_unique _ _ _ _ _ Hpd Hreg).
Qed.

Lemma registered_property_is_dispatched_witness :
  sdbus_property_get_callback Sample.ifc "Volume" (Sample.plain [])
    (state_of (registerProperty Sample.ifc "Volume" "i" (Some Sample.volume) None
                 Sample.with_sum))
  = Returned {| returnValue := 1;
                effects := [Invoke GetCallback;
                            Populate (Sample.answer (Sample.plain []) [7%Z])];
                userData := state_of (registerProperty Sample.ifc "Volume" "i"
                                        (Some Sample.volume) None Sample.with_sum) |}
  ∧ sdbus_property_set_callback Sample.ifc "Volume" (Sample.plain [9%Z])
      (state_of (registerProperty Sample.ifc "Volume" "i" (Some Sample.volume) None
                   Sample.with_sum))
    = Aborted.
Proof.
  assert (Hreg : registerProperty Sample.ifc "Volume" "i" (Some Sample.volume) None
                   Sample.with_sum
                 = Ok (state_of (registerProperty Sample.ifc "Volume" "i"
                                   (Some Sample.volume) None Sample.with_sum)))
    by (vm_compute; reflexivity).
  destruct (registered_property_is_dispatched _ _ _ _ _ _ _ Hreg) as [Hget Hset].
  split; [apply Hget|apply Hset].
Defined.

(** X3. A method call dispatched for a member that is not registered, or
    whose descriptor has no callback, fails [assert(callback)]; so does a
    property set dispatched for a property that is not registered or has no
    setter. Neither returns an error to the transport. *)
Theorem unbound_dispatch_aborts (o : Object) :
  (∀ msg,
     (∀ md, registered_method o (getInterfaceName msg) (getMemberName msg) md →
            MethodData.callback_ md = None) →
     sdbus_method_callback msg o = Aborted)
  ∧ (∀ i n value,
       (∀ pd, registered_property o i n pd → PropertyData.setCallback_ pd = None) →
       sdbus_property_set_callback i n value o = Aborted).
Proof.
  split.
  - apply sdbus_method_callback_unbound.
  - intros i n value. apply sdbus_property_set_callback_unbound.
Qed.

Lemma unbound_dispatch_aborts_witness :
  sdbus_method_callback (Sample.call "Nope" []) Sample.calc = Aborted
  ∧ sdbus_property_set_callback Sample.ifc "Volume" (Sample.plain [9%Z]) Sample.calc
    = Aborted.
Proof.
  split.
  - apply (proj1 (unbound_dispatch_aborts Sample.calc) (Sample.call "Nope" [])).
    intros md (d & Hd & Hm). vm_compute in Hd. injection Hd as <-.
    vm_compute in Hm. discriminate Hm.
  - apply (proj2 (unbound_dispatch_aborts Sample.calc) Sample.ifc "Volume").
    intros pd (d & Hd & Hm). vm_compute in Hd. injection Hd as <-.
    vm_compute in Hm. by injection Hm as <-.
Defined.

(** X4. A property get dispatched for a property that is not registered
    returns 1 with the write-only error, and the descriptor its lookup
    default-constructs stays in the registry: from then on every attempt to
    register that property throws the already-exists error, and a later get
    gives the same error again. *)
Theorem get_of_unregistered_property (o : Object) (i n : string) (reply : Message)
    (Hfresh : ∀ pd, ¬ registered_property o i n pd) :
  ∃ r, sdbus_property_get_callback i n reply o = Returned r
    ∧ returnValue r = 1%Z
    ∧ effects r = [ErrorSet "org.freedesktop.DBus.Error.Failed"
                     "Cannot read property as it is write-only"]
    ∧ registered_property (userData r) i n PropertyData.default
    ∧ (∀ sig g s, is_empty g && is_empty s = false →
         registerProperty i n sig g s (userData r)
         = Throw AlreadyExists_property (userData r))
    ∧ (∀ reply',
         sdbus_property_get_callback i n reply' (userData r) = Returned r).
Proof.
  destruct (property_lookup_inserts o i n Hfresh) as [Hdefault Hreg].
  unfold sdbus_property_get_callback at 1.
  rewrite property_get_callback_lookup_eq, Hdefault. simpl.
  eexists. split; [done|]. simpl. repeat split; try done.
  - intros sig g s Hv. by apply registerProperty_duplicate with PropertyData.default.
  - intros reply'.
    by rewrite (sdbus_property_get_callback_registered _ _ _ _ _ Hreg).
Qed.

Lemma get_of_unregistered_property_witness :
  ∃ r, sdbus_property_get_callback Sample.ifc "Gain" (Sample.plain []) Sample.with_sum
       = Returned r
    ∧ registerProperty Sample.ifc "Gain" "i" (Some Sample.volume) None (userData r)
      = Throw AlreadyExists_property (userData r).
Proof.
  destruct (get_of_unregistered_property Sample.with_sum Sample.ifc "Gain"
              (Sample.plain [])) as (r & Hr & _ & _ & _ & Hdup & _).
  - intros pd (d & Hd & Hm). vm_compute in Hd. injection Hd as <-.
    vm_compute in Hm. discriminate Hm.
  - exists r. split; [done|]. by apply Hdup.
Defined.

(** ** What a registration call leaves alone *)

Section frame.
Context {V : Type} (field : InterfaceData → gmap string V).

Lemma registered_in_kept o i d' j k x :
  (∀ k x, field (the_interface o i) !! k = Some x → field d' !! k = Some x) →
  registered_in field o j k x →
  registered_in field (with_interfaces o (<[i := d']> (interfaces_ o))) j k x.
Proof.
  intros Hkeep (d & Hd & Hk). unfold registered_in; simpl.
  destruct (decide (j = i)) as [->|Hne].
  - exists d'. rewrite lookup_insert_eq. split; [done|]. apply Hkeep.
    by rewrite (the_interface_lookup _ _ _ Hd).
  - exists d. by rewrite lookup_insert_ne.
Qed.

Lemma registered_in_inv o i d' j k x :
  field InterfaceData_default = ∅ →
  (∀ k x, field (the_interface o i) !! k = Some x → field d' !! k = Some x) →
  registered_in field (with_interfaces o (<[i := d']> (interfaces_ o))) j k x →
  registered_in field o j k x
  ∨ (j = i ∧ field d' !! k = Some x ∧ field (the_interface o i) !! k = None).
Proof.
  intros Hdef Hkeep (d & Hd & Hk). simpl in Hd.
  destruct (decide (j = i)) as [->|Hne].
  - rewrite lookup_insert_eq in Hd. injection Hd as <-.
    destruct (field (the_interface o i) !! k) as [y|] eqn:Hold; [left|by right].
    rewrite (Hkeep _ _ Hold) in Hk. injection Hk as ->.
    unfold the_interface in Hold. destruct (interfaces_ o !! i) as [d0|] eqn:Hd0.
    + by exists d0.
    + simpl in Hold. by rewrite Hdef, lookup_empty in Hold.
  - rewrite lookup_insert_ne in Hd by done. left. by exists d.
Qed.
End frame.

Lemma register_rejected r o : accepted r = false → state_of (register r o) = o.
Proof.
  destruct r as [i n a b cb|i n sig|i n sig g s]; simpl; [|done|].
  - unfold registerMethod. by destruct (is_empty cb).
  - unfold registerProperty. by destruct (is_empty g && is_empty s).
Qed.

(** The object left by an accepted registration call: the entry of its
    interface is replaced by one that differs in a single map, by the
    result of [emplace]. *)
Lemma register_accepted r o :
  accepted r = true →
  ∃ d', state_of (register r o)
        = with_interfaces o (<[interface_of r := d']> (interfaces_ o))
    ∧ vtable_ d' = vtable_ (the_interface o (interface_of r))
    ∧ slot_ d' = slot_ (the_interface o (interface_of r))
    ∧ match r with
      | RegisterMethod i n a b cb =>
          methods_ d' = (StdMap.emplace n (MethodData.mk a b cb)
                           (methods_ (the_interface o i))).1
          ∧ signals_ d' = signals_ (the_interface o i)
          ∧ properties_ d' = properties_ (the_interface o i)
      | RegisterSignal i n sig =>
          methods_ d' = methods_ (the_interface o i)
          ∧ signals_ d' = (StdMap.emplace n (SignalData.mk sig)
                             (signals_ (the_interface o i))).1
          ∧ properties_ d' = properties_ (the_interface o i)
      | RegisterProperty i n sig g s =>
          methods_ d' = methods_ (the_interface o i)
          ∧ signals_ d' = signals_ (the_interface o i)
          ∧ properties_ d' = (StdMap.emplace n (PropertyData.mk sig g s)
                                (properties_ (the_interface o i))).1
      end.
Proof.
  destruct r as [i n a b cb|i n sig|i n sig g s]; simpl; intros Hacc.
  - destruct cb as [f|]; [|done]. eexists. split; [apply registerMethod_state|done].
  - eexists. split; [apply registerSignal_state|done].
  - apply negb_true_iff in Hacc. eexists.
    split; [by apply registerProperty_state|done].
Qed.

Lemma emplace_keeps {V} (k k' : string) (v x : V) (m : gmap string V) :
  m !! k' = Some x → (StdMap.emplace k v m).1 !! k' = Some x.
Proof. intros H. by rewrite emplace_lookup, H. Qed.

Lemma emplace_new {V} (k k' : string) (v x : V) (m : gmap string V) :
  (StdMap.emplace k v m).1 !! k' = Some x → m !! k' = None →
  k' = k ∧ x = v.
Proof.
  rewrite emplace_lookup. intros H Hk'. rewrite Hk' in H.
  case_decide; [|done]. by injection H as <-.
Qed.

Lemma register_objectPath r o :
  objectPath_ (state_of (register r o)) = objectPath_ o.
Proof.
  destruct (accepted r) eqn:Hacc; [|by rewrite (register_rejected _ _ Hacc)].
  by destruct (register_accepted r o Hacc) as (d' & -> & _).
Qed.

Lemma register_interface_kept r o j d :
  interfaces_ o !! j = Some d →
  ∃ d', interfaces_ (state_of (register r o)) !! j = Some d'
        ∧ vtable_ d' = vtable_ d ∧ slot_ d' = slot_ d.
Proof.
  intros Hd. destruct (accepted r) eqn:Hacc.
  2:{ rewrite (register_rejected _ _ Hacc). by exists d. }
  destruct (register_accepted r o Hacc) as (d' & -> & Hvt & Hsl & _). simpl.
  destruct (decide (j = interface_of r)) as [->|Hne].
  - exists d'. rewrite lookup_insert_eq.
    by rewrite Hvt, Hsl, (the_interface_lookup _ _ _ Hd).
  - exists d. by rewrite lookup_insert_ne.
Qed.

Lemma register_interface_new r o j d' :
  interfaces_ (state_of (register r o)) !! j = Some d' →
  interfaces_ o !! j = None →
  j = interface_of r ∧ vtable_ d' = [] ∧ slot_ d' = slot_ InterfaceData_default.
Proof.
  destruct (accepted r) eqn:Hacc.
  2:{ rewrite (register_rejected _ _ Hacc). congruence. }
  destruct (register_accepted r o Hacc) as (d0 & -> & Hvt & Hsl & _). simpl.
  intros Hd' Hnone. destruct (decide (j = interface_of r)) as [->|Hne].
  - rewrite lookup_insert_eq in Hd'. injection Hd' as <-.
    unfold the_interface in Hvt, Hsl. rewrite Hnone in Hvt, Hsl. by rewrite Hvt, Hsl.
  - rewrite lookup_insert_ne in Hd' by done. congruence.
Qed.

Lemma register_members r o :
  (∀ j k md, registered_method o j k md →
     registered_method (state_of (register r o)) j k md)
  ∧ (∀ j k sd, registered_signal o j k sd →
       registered_signal (state_of (register r o)) j k sd)
  ∧ (∀ j k pd, registered_property o j k pd →
       registered_property (state_of (register r o)) j k pd)
  ∧ (∀ j k md, registered_method (state_of (register r o)) j k md →
       registered_method o j k md
       ∨ ∃ a b cb, r = RegisterMethod j k a b cb ∧ md = MethodData.mk a b cb)
  ∧ (∀ j k sd, registered_signal (state_of (register r o)) j k sd →
       registered_signal o j k sd
       ∨ ∃ sig, r = RegisterSignal j k sig ∧ sd = SignalData.mk sig)
  ∧ (∀ j k pd, registered_property (state_of (register r o)) j k pd →
       registered_property o j k pd
       ∨ ∃ sig g s, r = RegisterProperty j k sig g s ∧ pd = PropertyData.mk sig g s).
Proof.
  destruct (accepted r) eqn:Hacc.
  2:{ rewrite (register_rejected _ _ Hacc). repeat split; eauto. }
  destruct (register_accepted r o Hacc) as (d' & -> & Hvt & Hsl & Hmaps).
  destruct r as [i n a b cb|i n sig|i n sig g s]; simpl in *;
    destruct Hmaps as (Hm & Hs & Hp);
    (split; [|split; [|split; [|split; [|split]]]]); intros j k x Hreg;
    try (apply (registered_in_kept _ _ _ _ _ _ _) with (2 := Hreg);
         intros k' x' Hk'; rewrite ?Hm, ?Hs, ?Hp; auto using @emplace_keeps);
    (apply registered_in_inv in Hreg as [Hold|(-> & Hnew & Hfresh)];
       [by left|..|done
       |intros k' x' Hk'; rewrite ?Hm, ?Hs, ?Hp; auto using @emplace_keeps]);
    rewrite ?Hm, ?Hs, ?Hp in Hnew; try congruence;
    apply emplace_new in Hnew as (-> & ->); try done; right; eauto.
Qed.

(** X5. A registration call, whether it returns or throws, keeps the object
    path, every descriptor already registered, and the vtable and slot of
    every interface that already has an entry; an interface entry it
    creates has an empty vtable and no slot; and the only descriptor that
    can be new afterwards is the one the call was given, under the
    interface and name it was given. *)
Theorem registration_frame (r : Registration) (o : Object) :
  objectPath_ (state_of (register r o)) = objectPath_ o
  ∧ (∀ j d, interfaces_ o !! j = Some d →
       ∃ d', interfaces_ (state_of (register r o)) !! j = Some d'
             ∧ vtable_ d' = vtable_ d ∧ slot_ d' = slot_ d)
  ∧ (∀ j d', interfaces_ (state_of (register r o)) !! j = Some d' →
       interfaces_ o !! j = None →
       j = interface_of r ∧ vtable_ d' = [] ∧ slot_ d' = slot_ InterfaceData_default)
  ∧ (∀ j k md, registered_method o j k md →
       registered_method (state_of (register r o)) j k md)
  ∧ (∀ j k sd, registered_signal o j k sd →
       registered_signal (state_of (register r o)) j k sd)
  ∧ (∀ j k pd, registered_property o j k pd →
       registered_property (state_of (register r o)) j k pd)
  ∧ (∀ j k md, registered_method (state_of (register r o)) j k md →
       registered_method o j k md
       ∨ ∃ a b cb, r = RegisterMethod j k a b cb ∧ md = MethodData.mk a b cb)
  ∧ (∀ j k sd, registered_signal (state_of (register r o)) j k sd →
       registered_signal o j k sd
       ∨ ∃ sig, r = RegisterSignal j k sig ∧ sd = SignalData.mk sig)
  ∧ (∀ j k pd, registered_property (state_of (register r o)) j k pd →
       registered_property o j k pd
       ∨ ∃ sig g s, r = RegisterProperty j k sig g s ∧ pd = PropertyData.mk sig g s).
Proof.
  split; [apply register_objectPath|].
  split; [apply register_interface_kept|].
  split; [apply register_interface_new|]. apply register_members.
Qed.

Lemma registration_frame_witness :
  registered_method
    (state_of (register (RegisterMethod Sample.ifc "Mul" "ii" "i" (Some Sample.sum))
                 Sample.with_sum))
    Sample.ifc "Sum" (MethodData.mk "ii" "i" (Some Sample.sum)).
Proof.
  apply (proj1 (proj2 (proj2 (proj2 (registration_frame
           (RegisterMethod Sample.ifc "Mul" "ii" "i" (Some Sample.sum))
           Sample.with_sum))))).
  eexists; split; by vm_compute.
Defined.

(** ** What [finishRegistration] hands to the connection *)

Lemma installations_cons path first item items :
  installations path first (item :: items)
  = (first, (path, item.1, dispatch_table item.2))
      :: installations path (S first) items.
Proof.
  unfold installations. rewrite imap_cons. f_equal.
  - by rewrite Nat.add_0_r.
  - apply imap_ext. intros k x _. simpl. do 2 f_equal. lia.
Qed.

Lemma finishRegistration_loop_installs path items :
  ∀ c m,
    Forall (λ item, vtable_ item.2 = [] ∧ slot_ptr (slot_ item.2) = None) items →
    NoDup items.*1 →
    ∃ m',
      finishRegistration_loop path items c m
      = Returned ({| installed_ := installed_ c
                                   ++ installations path (nextSlot_ c) items;
                     nextSlot_ := nextSlot_ c + length items |}, m')
      ∧ (∀ k i d, items !! k = Some (i, d) →
           m' !! i = Some (activated d {| slot_ptr := Some (nextSlot_ c + k);
                                          slot_deleter := true |}))
      ∧ (∀ i, i ∉ items.*1 → m' !! i = m !! i).
Proof.
  induction items as [|[i0 d0] rest IH]; intros c m Hitems Hnd.
  - exists m. simpl. rewrite app_nil_r, Nat.add_0_r. destruct c. split; [done|].
    split; [|done]. intros k i d Hk. by rewrite lookup_nil in Hk.
  - apply Forall_cons in Hitems as [[Hempty Hslot] Hrest].
    apply NoDup_cons in Hnd as [Hi0 Hnd]. simpl in Hempty, Hslot, Hi0.
    cbn [finishRegistration_loop fst snd].
    rewrite (createInterfaceVTable_fresh _ Hempty).
    unfold activateInterfaceVTable. cbn [addObjectVTable with_vtable slot_ slot_ptr].
    rewrite Hslot.
    destruct (IH {| installed_ := installed_ c
                      ++ [(nextSlot_ c, (path, i0, dispatch_table d0))];
                    nextSlot_ := S (nextSlot_ c) |}
                 (StdMap.store i0
                    (activated d0 {| slot_ptr := Some (nextSlot_ c);
                                     slot_deleter := true |}) m) Hrest Hnd)
      as (m' & Hloop & Hin & Hout).
    exists m'. split; [|split].
    + unfold activated in Hloop. cbn [with_vtable vtable_] in *. rewrite Hloop.
      cbn [installed_ nextSlot_]. do 2 f_equal.
      rewrite installations_cons, <-app_assoc. simpl. f_equal. lia.
    + intros [|k] i d Hk; simpl in Hk.
      * injection Hk as <- <-. rewrite (Hout _ Hi0), Nat.add_0_r.
        apply lookup_insert_eq.
      * rewrite (Hin _ _ _ Hk). cbn [nextSlot_]. do 4 f_equal. lia.
    + intros i [Hne Hi]%not_elem_of_cons. rewrite (Hout _ Hi).
      unfold StdMap.store. by rewrite lookup_insert_ne.
Qed.

(** X6. On an object for which no vtable has been built, [finishRegistration]
    adds to the connection exactly one table per interface, in the
    iteration order of the interface map, each at the object's path and the
    interface's name, under consecutive fresh slots; the table handed over
    for an interface is the vtable then stored in its entry, and the entry
    owns the slot the connection returned for it. *)
Theorem finishRegistration_installs (c : Connection) (o : Object)
    (Hunbuilt : unbuilt o) :
  ∃ c' o',
    finishRegistration c o = Returned (c', o')
    ∧ installed_ c'
      = installed_ c
        ++ installations (objectPath_ o) (nextSlot_ c) (StdMap.iterate (interfaces_ o))
    ∧ nextSlot_ c' = nextSlot_ c + size (interfaces_ o)
    ∧ (∀ k i d, StdMap.iterate (interfaces_ o) !! k = Some (i, d) →
         interfaces_ o' !! i
         = Some (activated d {| slot_ptr := Some (nextSlot_ c + k);
                                slot_deleter := true |}))
    ∧ (∀ i d', interfaces_ o' !! i = Some d' →
         ∃ slot, slot_ d' = {| slot_ptr := Some slot; slot_deleter := true |}
                 ∧ nextSlot_ c ≤ slot < nextSlot_ c'
                 ∧ (slot, (objectPath_ o, i, vtable_ d')) ∈ installed_ c').
Proof.
  destruct (finishRegistration_loop_installs (objectPath_ o)
              (StdMap.iterate (interfaces_ o)) c (interfaces_ o))
    as (m' & Hloop & Hin & Hout).
  { apply Forall_forall. intros [k d] Hkd%elem_of_iterate.
    apply (map_Forall_lookup_1 _ _ _ _ Hunbuilt Hkd). }
  { apply NoDup_iterate_keys. }
  assert (Hfinish : finishRegistration c o
            = Returned ({| installed_ := installed_ c
                             ++ installations (objectPath_ o) (nextSlot_ c)
                                  (StdMap.iterate (interfaces_ o));
                           nextSlot_ := nextSlot_ c
                                        + length (StdMap.iterate (interfaces_ o)) |},
                        with_interfaces o m')).
  { unfold finishRegistration. by rewrite Hloop. }
  eexists _, _. split; [exact Hfinish|]. cbn [installed_ nextSlot_].
  split; [done|]. split; [by rewrite length_iterate|]. split; [exact Hin|].
  intros i d' Hd'.
  destruct (finishRegistration_Returned _ _ _ _ Hfinish) as [_ Hshape].
  specialize (Hshape i). destruct (interfaces_ o !! i) as [d|] eqn:Hd; [|congruence].
  apply elem_of_iterate, list_elem_of_lookup in Hd as [k Hk].
  pose proof (Hin _ _ _ Hk) as Hact. simpl in Hd'. rewrite Hd' in Hact.
  injection Hact as ->. exists (nextSlot_ c + k). split; [done|].
  pose proof (lookup_lt_Some _ _ _ Hk). split; [lia|].
  apply elem_of_app. right. apply list_elem_of_lookup. exists k.
  unfold installations. rewrite list_lookup_imap, Hk. done.
Qed.

Lemma finishRegistration_installs_witness :
  ∃ c' o',
    finishRegistration Connection_initial Sample.with_sum = Returned (c', o')
    ∧ installed_ c'
      = [(0, ("/calc", Sample.ifc,
              [VTableStartItem;
               VTableMethodItem "Sum" "ii" "i" addr_sdbus_method_callback;
               VTableEndItem]))]
    ∧ nextSlot_ c' = 1.
Proof.
  assert (Hunbuilt : unbuilt Sample.with_sum)
    by (apply Registering_unbuilt; repeat constructor).
  destruct (finishRegistration_installs Connection_initial Sample.with_sum Hunbuilt)
    as (c' & o' & Hfinish & Hinst & Hnext & _).
  exists c', o'. split; [done|]. rewrite Hinst, Hnext. split; by vm_compute.
Defined.

(** ** Dispatch depends on the registry alone *)

Lemma registered_method_registry o i n md :
  registered_method o i n md
  ↔ ∃ ms, registry o !! i = Some ms ∧ ms.1.1 !! n = Some md.
Proof.
  rewrite registry_lookup. split.
  - intros (d & -> & Hm). by exists (members d).
  - intros (ms & Hms & Hm). destruct (interfaces_ o !! i) as [d|] eqn:Hd; [|done].
    injection Hms as <-. by exists d.
Qed.

Lemma registered_property_registry o i n pd :
  registered_property o i n pd
  ↔ ∃ ms, registry o !! i = Some ms ∧ ms.2 !! n = Some pd.
Proof.
  rewrite registry_lookup. split.
  - intros (d & -> & Hm). by exists (members d).
  - intros (ms & Hms & Hm). destruct (interfaces_ o !! i) as [d|] eqn:Hd; [|done].
    injection Hms as <-. by exists d.
Qed.

Lemma method_callback_lookup_registry o1 o2 i n :
  registry o1 = registry o2 →
  (method_callback_lookup i n o1).1 = (method_callback_lookup i n o2).1.
Proof.
  intros Hreg.
  assert (∀ md, registered_method o1 i n md ↔ registered_method o2 i n md) as Hiff.
  { intros md. by rewrite !registered_method_registry, Hreg. }
  destruct (method_lookup_cases o1 i n) as [(md & Hmd & ->)|[Hfresh ->]].
  - apply Hiff in Hmd. by rewrite (method_callback_lookup_registered _ _ _ _ Hmd).
  - symmetry. apply method_callback_lookup_inserts. intros md Hmd%Hiff.
    by apply Hfresh in Hmd.
Qed.

Lemma property_lookup_registry o1 o2 i n :
  registry o1 = registry o2 →
  (property_lookup i n o1).1 = (property_lookup i n o2).1.
Proof.
  intros Hreg.
  assert (∀ pd, registered_property o1 i n pd ↔ registered_property o2 i n pd) as Hiff.
  { intros pd. by rewrite !registered_property_registry, Hreg. }
  destruct (property_lookup_cases o1 i n) as [(pd & Hpd & ->)|[Hfresh ->]].
  - apply Hiff in Hpd. by rewrite (property_lookup_registered _ _ _ _ Hpd).
  - symmetry. apply property_lookup_inserts. intros pd Hpd%Hiff.
    by apply Hfresh in Hpd.
Qed.

Lemma observed_method_callback msg o :
  observed (sdbus_method_callback msg o)
  = match (method_callback_lookup (getInterfaceName msg) (getMemberName msg) o).1 with
    | None => Aborted
    | Some f =>
        match f msg (createReply msg) with
        | Done reply => Returned (1%Z, [Invoke MethodCallback; Send reply])
        | Raise (sdbus_Error name message) =>
            Returned (1%Z, [Invoke MethodCallback;
                            ErrorSet (c_str name) (c_str message)])
        | Raise (other_exception what) => Propagated (other_exception what)
        end
    end.
Proof.
  unfold sdbus_method_callback.
  destruct (method_callback_lookup _ _ _) as [[f|] o1]; [|done]. simpl.
  by destruct (f msg (createReply msg)) as [reply|[name message|what]].
Qed.

Lemma observed_property_get_callback i n reply o :
  observed (sdbus_property_get_callback i n reply o)
  = match PropertyData.getCallback_ (property_lookup i n o).1 with
    | None => Returned (1%Z, [ErrorSet "org.freedesktop.DBus.Error.Failed"
                                "Cannot read property as it is write-only"])
    | Some f =>
        match f reply with
        | Done reply => Returned (1%Z, [Invoke GetCallback; Populate reply])
        | Raise (sdbus_Error name message) =>
            Returned (1%Z, [Invoke GetCallback;
                            ErrorSet (c_str name) (c_str message)])
        | Raise (other_exception what) => Propagated (other_exception what)
        end
    end.
Proof.
  unfold sdbus_property_get_callback. rewrite property_get_callback_lookup_eq.
  destruct (PropertyData.getCallback_ _) as [f|]; [|done].
  by destruct (f reply) as [reply'|[name message|what]].
Qed.

Lemma observed_property_set_callback i n value o :
  observed (sdbus_property_set_callback i n value o)
  = match PropertyData.setCallback_ (property_lookup i n o).1 with
    | None => Aborted
    | Some f =>
        match f value with
        | Done _ => Returned (1%Z, [Invoke SetCallback])
        | Raise (sdbus_Error name message) =>
            Returned (1%Z, [Invoke SetCallback;
                            ErrorSet (c_str name) (c_str message)])
        | Raise (other_exception what) => Propagated (other_exception what)
        end
    end.
Proof.
  unfold sdbus_property_set_callback. rewrite property_set_callback_lookup_eq.
  destruct (PropertyData.setCallback_ _) as [f|]; [|done].
  by destruct (f value) as [[]|[name message|what]].
Qed.

Lemma observed_method_callback_registry msg o1 o2 :
  registry o1 = registry o2 →
  observed (sdbus_method_callback msg o1) = observed (sdbus_method_callback msg o2).
Proof.
  intros Hreg. rewrite !observed_method_callback.
  by rewrite (method_callback_lookup_registry _ _ _ _ Hreg).
Qed.

(** X7. [finishRegistration] does not change what any entry point does: for
    every event, the return value, the effects on the transport, a
    propagated exception or a failed assertion are the same on the object it
    leaves as on the object it was called on. *)
Theorem finishRegistration_keeps_dispatch (c c' : Connection) (o o' : Object)
    (Hfinish : finishRegistration c o = Returned (c', o')) :
  (∀ msg, observed (sdbus_method_callback msg o')
          = observed (sdbus_method_callback msg o))
  ∧ (∀ i n reply, observed (sdbus_property_get_callback i n reply o')
                  = observed (sdbus_property_get_callback i n reply o))
  ∧ (∀ i n value, observed (sdbus_property_set_callback i n value o')
                  = observed (sdbus_property_set_callback i n value o)).
Proof.
  apply finishRegistration_registry in Hfinish. split; [|split].
  - intros msg. by apply observed_method_callback_registry.
  - intros i n reply. rewrite !observed_property_get_callback.
    by rewrite (property_lookup_registry _ _ _ _ Hfinish).
  - intros i n value. rewrite !observed_property_set_callback.
    by rewrite (property_lookup_registry _ _ _ _ Hfinish).
Qed.

Lemma finishRegistration_keeps_dispatch_witness :
  observed (sdbus_method_callback (Sample.call "Sum" [2; 3]%Z)
              (Sample.finalized Sample.calc).2)
  = Returned (1%Z, [Invoke MethodCallback;
                    Send (Sample.answer
                            (createReply (Sample.call "Sum" [2; 3]%Z)) [5%Z])]).
Proof.
  assert (Hfinish : finishRegistration Connection_initial Sample.calc
                    = Returned ((Sample.finalized Sample.calc).1,
                                (Sample.finalized Sample.calc).2))
    by (vm_compute; reflexivity).
  rewrite (proj1 (finishRegistration_keeps_dispatch _ _ _ _ Hfinish)).
  vm_compute. reflexivity.
Defined.

(** ** Registration and [finishRegistration] together *)

Lemma register_unbuilt r o : unbuilt o → unbuilt (state_of (register r o)).
Proof.
  intros Hun j d' Hd'.
  destruct (interfaces_ o !! j) as [d|] eqn:Hd.
  - destruct (register_interface_kept r _ _ _ Hd) as (d'' & Hd'' & Hvt & Hsl).
    rewrite Hd' in Hd''. injection Hd'' as <-. rewrite Hvt, Hsl.
    apply (map_Forall_lookup_1 _ _ _ _ Hun Hd).
  - by destruct (register_interface_new _ _ _ _ Hd' Hd) as (_ & -> & ->).
Qed.

Lemma register_all_unbuilt rs o : unbuilt o → unbuilt (register_all rs o).
Proof.
  revert o. induction rs as [|r rs IH]; intros o Hun; [done|].
  apply IH. by apply register_unbuilt.
Qed.

(** X8. On an object for which no vtable has been built, once
    [registerMethod] has returned, [finishRegistration] returns as well; the
    vtable it builds for the interface contains the entry of the new method
    (name and signatures as C strings), and a method call then dispatched
    for the member runs the registered callback. *)
Theorem register_finish_dispatch (c : Connection) (o o1 : Object)
    (i n a b : string) (cb : method_callback) (msg : Message)
    (Hunbuilt : unbuilt o)
    (Hreg : registerMethod i n a b cb o = Ok o1)
    (Hi : getInterfaceName msg = i) (Hn : getMemberName msg = n) :
  ∃ c' o2 f d,
    cb = Some f
    ∧ finishRegistration c o1 = Returned (c', o2)
    ∧ interfaces_ o2 !! i = Some d
    ∧ VTableMethodItem (c_str n) (c_str a) (c_str b) addr_sdbus_method_callback
      ∈ vtable_ d
    ∧ sdbus_method_callback msg o2
      = match f msg (createReply msg) with
        | Done reply =>
            Returned {| returnValue := 1;
                        effects := [Invoke MethodCallback; Send reply];
                        userData := o2 |}
        | Raise (sdbus_Error name message) =>
            Returned {| returnValue := 1;
                        effects := [Invoke MethodCallback;
                                    ErrorSet (c_str name) (c_str message)];
                        userData := o2 |}
        | Raise (other_exception what) => Propagated (other_exception what)
        end.
Proof.
  assert (Hun1 : unbuilt o1).
  { change o1 with (state_of (Ok o1)). rewrite <-Hreg.
    by apply (register_unbuilt (RegisterMethod i n a b cb)). }
  apply registerMethod_Ok in Hreg as (Hmd & _ & Hcb).
  destruct cb as [f|]; [|done].
  destruct (finishRegistration_returns c o1 Hun1) as (c' & o2 & Hfinish).
  assert (Hmd2 : registered_method o2 i n (MethodData.mk a b (Some f))).
  { apply registered_method_registry.
    rewrite (finishRegistration_registry _ _ _ _ Hfinish).
    by apply registered_method_registry. }
  destruct Hmd2 as (d & Hd & Hm).
  exists c', o2, f, d. repeat split; try done.
  - destruct (finishRegistration_vtable _ _ _ _ _ _ Hfinish Hd) as [-> _].
    apply elem_of_dispatch_table. do 2 right. left.
    by exists n, (MethodData.mk a b (Some f)).
  - subst i n. apply sdbus_method_callback_registered with (MethodData.mk a b (Some f));
      [by exists d|done].
Qed.

Lemma register_finish_dispatch_witness :
  ∃ c' o2 f d,
    Some Sample.sum = Some f
    ∧ finishRegistration Connection_initial Sample.with_sum = Returned (c', o2)
    ∧ interfaces_ o2 !! Sample.ifc = Some d
    ∧ VTableMethodItem (c_str "Sum") (c_str "ii") (c_str "i") addr_sdbus_method_callback
      ∈ vtable_ d
    ∧ sdbus_method_callback (Sample.call "Sum" [2; 3]%Z) o2
      = match f (Sample.call "Sum" [2; 3]%Z)
                (createReply (Sample.call "Sum" [2; 3]%Z)) with
        | Done reply =>
            Returned {| returnValue := 1;
                        effects := [Invoke MethodCallback; Send reply];
                        userData := o2 |}
        | Raise (sdbus_Error name message) =>
            Returned {| returnValue := 1;
                        effects := [Invoke MethodCallback;
                                    ErrorSet (c_str name) (c_str message)];
                        userData := o2 |}
        | Raise (other_exception what) => Propagated (other_exception what)
        end.
Proof.
  apply (register_finish_dispatch Connection_initial Sample.empty Sample.with_sum
           Sample.ifc "Sum" "ii" "i" (Some Sample.sum) (Sample.call "Sum" [2; 3]%Z)).
  - apply map_Forall_empty.
  - vm_compute. reflexivity.
  - reflexivity.
  - reflexivity.
Defined.

(** ** Registration after [finishRegistration] *)

Lemma finishRegistration_loop_aborts path items :
  ∀ c m,
    Forall (λ item, slot_ptr (slot_ item.2) = None
                    ∨ slot_deleter (slot_ item.2) = true) items →
    Exists (λ item, vtable_ item.2 ≠ []) items →
    finishRegistration_loop path items c m = Aborted.
Proof.
  induction items as [|[i0 d0] rest IH]; intros c m Hslots Hbuilt.
  - by apply Exists_nil in Hbuilt.
  - apply Forall_cons in Hslots as [Hslot Hslots]. simpl in Hslot.
    destruct (vtable_ d0) as [|e v] eqn:Hvt.
    + apply Exists_cons in Hbuilt as [Hhere|Hrest]; [by simpl in Hhere|].
      cbn [finishRegistration_loop fst snd].
      rewrite (createInterfaceVTable_fresh _ Hvt).
      unfold activateInterfaceVTable. cbn [addObjectVTable with_vtable slot_ slot_ptr].
      destruct (slot_ptr (slot_ d0)) as [old|].
      * destruct Hslot as [|Hdel]; [done|].
        cbn [slot_deleter]. rewrite Hdel. by apply IH.
      * by apply IH.
    + apply finishRegistration_loop_built. by rewrite Hvt.
Qed.

Lemma finishRegistration_loop_owned path items :
  ∀ c m c' m',
    NoDup items.*1 →
    finishRegistration_loop path items c m = Returned (c', m') →
    (∀ k d, (k, d) ∈ items →
       ∃ slot, m' !! k = Some (activated d {| slot_ptr := Some slot;
                                              slot_deleter := true |}))
    ∧ (∀ k, k ∉ items.*1 → m' !! k = m !! k).
Proof.
  induction items as [|[k0 d0] rest IH]; intros c m c' m' Hnd Hloop; simpl in *.
  - inversion Hloop; subst. split; [|done]. intros k d Hin. by apply elem_of_nil in Hin.
  - apply NoDup_cons in Hnd as [Hk0 Hnd].
    destruct (createInterfaceVTable d0) as [built| |] eqn:Hbuilt; try done.
    apply createInterfaceVTable_Returned in Hbuilt as [Hempty ->].
    destruct (activateInterfaceVTable _ _ _ _ _) as [[c1 d1]| |] eqn:Hact; try done.
    apply activateInterfaceVTable_Returned in Hact as ->.
    destruct (IH _ _ _ _ Hnd Hloop) as [Hin Hout]. split.
    + intros k d [[= -> ->]|Hrest]%elem_of_cons; [|by apply Hin].
      eexists. rewrite (Hout _ Hk0). apply lookup_insert_eq.
    + intros k [Hne Hk]%not_elem_of_cons. rewrite (Hout _ Hk).
      unfold StdMap.store. by rewrite lookup_insert_ne.
Qed.

(** After [finishRegistration] every interface has a vtable and owns a slot
    whose deleter is set. *)
Lemma finishRegistration_owned c o c' o' :
  finishRegistration c o = Returned (c', o') →
  map_Forall (λ _ d', vtable_ d' ≠ [] ∧ slot_deleter (slot_ d') = true
                      ∧ is_Some (slot_ptr (slot_ d')))
    (interfaces_ o').
Proof.
  intros Hfinish i d' Hd'.
  pose proof (finishRegistration_Returned _ _ _ _ Hfinish) as [_ Hshape].
  specialize (Hshape i). unfold finishRegistration in Hfinish.
  destruct (finishRegistration_loop _ _ _ _) as [[c1 m1]| |] eqn:Hloop; try done.
  injection Hfinish as <- <-. simpl in Hd'.
  apply finishRegistration_loop_owned in Hloop as [Hin _];
    [|apply NoDup_iterate_keys].
  destruct (interfaces_ o !! i) as [d|] eqn:Hd; [|simpl in Hshape; congruence].
  apply elem_of_iterate in Hd. destruct (Hin _ _ Hd) as [slot Hs].
  rewrite Hd' in Hs. injection Hs as ->. simpl. eauto.
Qed.

Lemma register_all_frame rs :
  ∀ o j d, interfaces_ o !! j = Some d →
    ∃ d', interfaces_ (register_all rs o) !! j = Some d'
          ∧ vtable_ d' = vtable_ d ∧ slot_ d' = slot_ d.
Proof.
  induction rs as [|r rs IH]; intros o j d Hd; [by exists d|].
  destruct (register_interface_kept r _ _ _ Hd) as (d1 & Hd1 & <- & <-). by apply IH.
Qed.

Lemma register_all_slots rs :
  ∀ o,
    map_Forall (λ _ d, slot_ptr (slot_ d) = None ∨ slot_deleter (slot_ d) = true)
      (interfaces_ o) →
    map_Forall (λ _ d, slot_ptr (slot_ d) = None ∨ slot_deleter (slot_ d) = true)
      (interfaces_ (register_all rs o)).
Proof.
  induction rs as [|r rs IH]; intros o Hslots; [done|].
  apply IH. intros j d' Hd'.
  destruct (interfaces_ o !! j) as [d|] eqn:Hd.
  - destruct (register_interface_kept r _ _ _ Hd) as (d'' & Hd'' & _ & Hsl).
    rewrite Hd' in Hd''. injection Hd'' as <-. rewrite Hsl.
    apply (map_Forall_lookup_1 _ _ _ _ Hslots Hd).
  - destruct (register_interface_new _ _ _ _ Hd' Hd) as (_ & _ & ->). by left.
Qed.

Lemma register_all_new rs :
  ∀ o j d', interfaces_ (register_all rs o) !! j = Some d' →
    interfaces_ o !! j = None →
    vtable_ d' = [] ∧ slot_ d' = slot_ InterfaceData_default.
Proof.
  induction rs as [|r rs IH]; intros o j d' Hd' Hnone; [simpl in Hd'; congruence|].
  change (register_all (r :: rs) o) with (register_all rs (state_of (register r o)))
    in Hd'.
  destruct (interfaces_ (state_of (register r o)) !! j) as [d1|] eqn:Hd1.
  - destruct (register_interface_new _ _ _ _ Hd1 Hnone) as (_ & Hvt & Hsl).
    destruct (register_all_frame rs _ _ _ Hd1) as (d2 & Hd2 & Hvt2 & Hsl2).
    rewrite Hd' in Hd2. injection Hd2 as <-. by rewrite Hvt2, Hsl2.
  - by apply (IH _ _ _ Hd').
Qed.

(** X9. Once [finishRegistration] has returned on an object that has at
    least one interface, whatever registration calls follow, the object they
    leave has, for each interface there was, the vtable and the slot that
    [finishRegistration] gave it, and, for each interface entry created
    since, an empty vtable and no slot. A further [finishRegistration] on
    that object does not return: it ends in the failed
    [assert(vtable.empty())]. What that call builds and hands to the
    connection for interfaces it visits before the assertion fails is not
    stated. *)
Theorem registration_after_finishRegistration_keeps_tables
    (c c' c'' : Connection) (o o' : Object) (rs : list Registration)
    (Hfinish : finishRegistration c o = Returned (c', o'))
    (Hnonempty : interfaces_ o ≠ ∅) :
  (∀ i d, interfaces_ o' !! i = Some d →
     ∃ d', interfaces_ (register_all rs o') !! i = Some d'
           ∧ vtable_ d' = vtable_ d ∧ slot_ d' = slot_ d)
  ∧ (∀ i d', interfaces_ (register_all rs o') !! i = Some d' →
       interfaces_ o' !! i = None →
       vtable_ d' = [] ∧ slot_ d' = slot_ InterfaceData_default)
  ∧ finishRegistration c'' (register_all rs o') = Aborted.
Proof.
  split; [apply register_all_frame|]. split; [apply register_all_new|].
  pose proof (finishRegistration_Returned _ _ _ _ Hfinish) as [_ Hshape].
  assert (Hslots : map_Forall (λ _ d, slot_ptr (slot_ d) = None
                                      ∨ slot_deleter (slot_ d) = true)
                     (interfaces_ o')).
  { intros k dk Hk. right. apply (finishRegistration_owned _ _ _ _ Hfinish _ _ Hk). }
  apply (register_all_slots rs) in Hslots.
  unfold finishRegistration. rewrite finishRegistration_loop_aborts; [done| |].
  - apply Forall_forall. intros [j d'] Hj%elem_of_iterate.
    apply (map_Forall_lookup_1 _ _ _ _ Hslots Hj).
  - apply map_choose in Hnonempty as (i & d & Hd).
    specialize (Hshape i). rewrite Hd in Hshape. destruct Hshape as [_ [slot Hact]].
    destruct (register_all_frame rs _ _ _ Hact) as (d' & Hd' & Hvt & _).
    apply Exists_exists. exists (i, d'). split; [by apply elem_of_iterate|].
    simpl. by rewrite Hvt.
Qed.

Lemma registration_after_finishRegistration_keeps_tables_witness :
  (∀ d', interfaces_
           (register_all [RegisterMethod "a.Late" "Mul" "ii" "i" (Some Sample.sum)]
              (Sample.finalized Sample.with_sum).2) !! "a.Late" = Some d' →
         vtable_ d' = [] ∧ slot_ d' = slot_ InterfaceData_default)
  ∧ finishRegistration (Sample.finalized Sample.with_sum).1
      (register_all [RegisterMethod "a.Late" "Mul" "ii" "i" (Some Sample.sum)]
         (Sample.finalized Sample.with_sum).2)
    = Aborted.
Proof.
  assert (Hfinish : finishRegistration Connection_initial Sample.with_sum
                    = Returned ((Sample.finalized Sample.with_sum).1,
                                (Sample.finalized Sample.with_sum).2))
    by (vm_compute; reflexivity).
  assert (Hnonempty : interfaces_ Sample.with_sum ≠ ∅).
  { intros H. apply (f_equal (λ m, m !! Sample.ifc)) in H.
    vm_compute in H. discriminate H. }
  destruct (registration_after_finishRegistration_keeps_tables
              Connection_initial _ (Sample.finalized Sample.with_sum).1 _ _
              [RegisterMethod "a.Late" "Mul" "ii" "i" (Some Sample.sum)]
              Hfinish Hnonempty) as (_ & Hnew & Habort).
  split; [|exact Habort].
  intros d' Hd'. apply (Hnew _ _ Hd'). vm_compute. reflexivity.
Defined.

(** ** Callbacks of registered members *)

Lemma register_all_invariant (P : Object → Prop) rs :
  (∀ r o, P o → P (state_of (register r o))) →
  ∀ o, P o → P (register_all rs o).
Proof.
  intros Hstep. induction rs as [|r rs IH]; intros o Ho; [done|].
  apply IH. by apply Hstep.
Qed.

(** X10. In an object obtained from a new one by registration calls, every
    registered method has a callback and every registered property has a
    getter or a setter; hence a method call dispatched for a registered
    method never fails [assert(callback)], before or after
    [finishRegistration]. *)
Theorem registered_callbacks_are_bound (path : string) (rs : list Registration) :
  (∀ i n md, registered_method (register_all rs (createObject path)) i n md →
     MethodData.callback_ md ≠ None)
  ∧ (∀ i n pd, registered_property (register_all rs (createObject path)) i n pd →
       PropertyData.getCallback_ pd ≠ None ∨ PropertyData.setCallback_ pd ≠ None)
  ∧ (∀ msg md,
       registered_method (register_all rs (createObject path))
         (getInterfaceName msg) (getMemberName msg) md →
       sdbus_method_callback msg (register_all rs (createObject path)) ≠ Aborted
       ∧ ∀ c c' o', finishRegistration c (register_all rs (createObject path))
                    = Returned (c', o') →
                    sdbus_method_callback msg o' ≠ Aborted).
Proof.
  assert (Hinv :
    (∀ i n md, registered_method (register_all rs (createObject path)) i n md →
       MethodData.callback_ md ≠ None)
    ∧ (∀ i n pd, registered_property (register_all rs (createObject path)) i n pd →
         PropertyData.getCallback_ pd ≠ None ∨ PropertyData.setCallback_ pd ≠ None)).
  { apply (register_all_invariant (λ o,
      (∀ i n md, registered_method o i n md → MethodData.callback_ md ≠ None)
      ∧ (∀ i n pd, registered_property o i n pd →
           PropertyData.getCallback_ pd ≠ None ∨ PropertyData.setCallback_ pd ≠ None))).
    - intros r o [Hm Hp]. destruct (accepted r) eqn:Hacc.
      2:{ by rewrite (register_rejected _ _ Hacc). }
      destruct (register_members r o) as (_ & _ & _ & Hmi & _ & Hpi).
      split.
      + intros i n md [Hold|(a & b & cb & -> & ->)]%Hmi; [by eapply Hm|].
        simpl in *. by destruct cb.
      + intros i n pd [Hold|(sig & g & s & -> & ->)]%Hpi; [by eapply Hp|].
        simpl in *. destruct g; [by left|]. destruct s; [by right|done].
    - split; intros i n x (d & Hd & _); simpl in Hd; by rewrite lookup_empty in Hd. }
  destruct Hinv as [Hm Hp]. split; [done|]. split; [done|].
  intros msg md Hreg. pose proof (Hm _ _ _ Hreg) as Hcb.
  destruct (MethodData.callback_ md) as [f|] eqn:Hf; [|done].
  assert (∀ o, observed (sdbus_method_callback msg o)
               = observed (sdbus_method_callback msg (register_all rs (createObject path)))
               → sdbus_method_callback msg o ≠ Aborted) as Hobs.
  { intros o Ho Habort. rewrite Habort in Ho.
    rewrite (sdbus_method_callback_registered _ _ _ _ Hreg Hf) in Ho.
    by destruct (f msg (createReply msg)) as [reply|[name message|what]]. }
  split; [by apply Hobs|].
  intros c c' o' Hfinish. apply Hobs.
  by apply observed_method_callback_registry, (finishRegistration_registry c _ c').
Qed.

Lemma registered_callbacks_are_bound_witness :
  sdbus_method_callback (Sample.call "Sum" [])
    (register_all [RegisterMethod Sample.ifc "Sum" "ii" "i" (Some Sample.sum);
                   RegisterMethod Sample.ifc "Nil" "" "" None]
       (createObject "/calc"))
  ≠ Aborted.
Proof.
  apply (proj2 (proj2 (registered_callbacks_are_bound "/calc"
           [RegisterMethod Sample.ifc "Sum" "ii" "i" (Some Sample.sum);
            RegisterMethod Sample.ifc "Nil" "" "" None]))
           (Sample.call "Sum" []) (MethodData.mk "ii" "i" (Some Sample.sum))).
  eexists; split; by vm_compute.
Defined.

(** ** The order of registration calls *)

Lemma register_state r o :
  accepted r = true →
  state_of (register r o)
  = with_interfaces o
      (<[interface_of r := apply_registration r (the_interface o (interface_of r))]>
         (interfaces_ o)).
Proof.
  destruct r as [i n a b cb|i n sig|i n sig g s]; simpl; intros Hacc.
  - destruct cb as [f|]; [|done]. apply registerMethod_state.
  - apply registerSignal_state.
  - apply negb_true_iff in Hacc. by apply registerProperty_state.
Qed.

(** How a registration call ends. *)
Lemma register_thrown r o :
  thrown (register r o)
  = if accepted r
    then if taken r (the_interface o (interface_of r))
         then Some (collision r) else None
    else Some (rejection r).
Proof.
  destruct r as [i n a b cb|i n sig|i n sig g s]; simpl.
  - unfold registerMethod, the_interface. destruct cb as [f|]; [|done]. simpl.
    access_interface o i; simpl;
      destruct (_ !! n) as [md|] eqn:Hn;
      rewrite ?(emplace_present _ _ _ _ Hn), ?(emplace_absent _ _ _ Hn); simpl;
      try done; by rewrite lookup_empty in Hn.
  - unfold registerSignal, the_interface.
    access_interface o i; simpl;
      destruct (_ !! n) as [md|] eqn:Hn;
      rewrite ?(emplace_present _ _ _ _ Hn), ?(emplace_absent _ _ _ Hn); simpl;
      try done; by rewrite lookup_empty in Hn.
  - unfold registerProperty, the_interface.
    destruct (is_empty g && is_empty s); [done|]. simpl.
    access_interface o i; simpl;
      destruct (_ !! n) as [md|] eqn:Hn;
      rewrite ?(emplace_present _ _ _ _ Hn), ?(emplace_absent _ _ _ Hn); simpl;
      try done; by rewrite lookup_empty in Hn.
Qed.

Lemma emplace_commute {V} (k1 k2 : string) (v1 v2 : V) (m : gmap string V) :
  k1 ≠ k2 →
  (StdMap.emplace k2 v2 (StdMap.emplace k1 v1 m).1).1
  = (StdMap.emplace k1 v1 (StdMap.emplace k2 v2 m).1).1.
Proof.
  intros Hne. apply map_eq. intros k. rewrite !emplace_lookup.
  destruct (m !! k); [done|]. repeat case_decide; congruence.
Qed.

Lemma apply_registration_commute r1 r2 d :
  ¬ same_member r1 r2 → interface_of r1 = interface_of r2 →
  apply_registration r2 (apply_registration r1 d)
  = apply_registration r1 (apply_registration r2 d).
Proof.
  intros Hdiff Hi.
  destruct r1 as [i1 n1 a1 b1 cb1|i1 n1 sig1|i1 n1 sig1 g1 s1],
           r2 as [i2 n2 a2 b2 cb2|i2 n2 sig2|i2 n2 sig2 g2 s2];
    simpl in *; try done;
    unfold with_methods, with_signals, with_properties; simpl; f_equal;
    apply emplace_commute; intros ->; by apply Hdiff.
Qed.

Lemma taken_apply_registration r1 r2 d :
  ¬ same_member r1 r2 → interface_of r1 = interface_of r2 →
  taken r2 (apply_registration r1 d) = taken r2 d.
Proof.
  intros Hdiff Hi.
  destruct r1 as [i1 n1 a1 b1 cb1|i1 n1 sig1|i1 n1 sig1 g1 s1],
           r2 as [i2 n2 a2 b2 cb2|i2 n2 sig2|i2 n2 sig2 g2 s2];
    simpl in *; try done;
    rewrite emplace_lookup; destruct (_ !! n2); try done;
    rewrite decide_False by (intros ->; by apply Hdiff); done.
Qed.

Lemma the_interface_register r o j :
  accepted r = true →
  the_interface (state_of (register r o)) j
  = if decide (j = interface_of r)
    then apply_registration r (the_interface o j)
    else the_interface o j.
Proof.
  intros Hacc. rewrite (register_state _ _ Hacc). unfold the_interface at 1. simpl.
  case_decide as Hj.
  - subst. by rewrite lookup_insert_eq.
  - by rewrite lookup_insert_ne.
Qed.

Lemma same_member_sym r1 r2 : same_member r1 r2 → same_member r2 r1.
Proof. destruct r1, r2; simpl; try done; by intros [-> ->]. Qed.

Lemma register_thrown_after r1 r2 o :
  ¬ same_member r1 r2 →
  thrown (register r2 (state_of (register r1 o))) = thrown (register r2 o).
Proof.
  intros Hdiff. destruct (accepted r1) eqn:Hacc1.
  2:{ by rewrite (register_rejected _ _ Hacc1). }
  rewrite !register_thrown, (the_interface_register _ _ _ Hacc1).
  case_decide as Hi; [|done]. by rewrite taken_apply_registration.
Qed.

(** X11. Two registration calls that do not name the same member (same
    category, interface and name) can be made in either order: the object
    left is the same, and each call ends the same way (returns, or throws
    the same error) whether it is made first or second. *)
Theorem registrations_commute (r1 r2 : Registration) (o : Object)
    (Hdiff : ¬ same_member r1 r2) :
  state_of (register r2 (state_of (register r1 o)))
  = state_of (register r1 (state_of (register r2 o)))
  ∧ thrown (register r2 (state_of (register r1 o))) = thrown (register r2 o)
  ∧ thrown (register r1 (state_of (register r2 o))) = thrown (register r1 o).
Proof.
  split; [|split; apply register_thrown_after;
           [done|by intros H%same_member_sym]].
  destruct (accepted r1) eqn:Hacc1.
  2:{ by rewrite !(register_rejected r1) by done. }
  destruct (accepted r2) eqn:Hacc2.
  2:{ by rewrite !(register_rejected r2) by done. }
  rewrite (register_state r2 (state_of _) Hacc2), (register_state r1 (state_of _) Hacc1).
  rewrite !the_interface_register by done.
  rewrite (register_state r1 o Hacc1), (register_state r2 o Hacc2). simpl.
  unfold with_interfaces; simpl. f_equal.
  destruct (decide (interface_of r2 = interface_of r1)) as [Heq|Hne].
  - rewrite decide_True by done. rewrite Heq, !insert_insert_eq. f_equal.
    rewrite <-Heq at 2. rewrite Heq at 1.
    rewrite <-Heq. rewrite (apply_registration_commute r1 r2) by done. by rewrite Heq.
  - rewrite !decide_False by done. by apply insert_insert_ne.
Qed.

Lemma registrations_commute_witness :
  state_of (register (RegisterSignal Sample.ifc "Changed" "i")
              (state_of (register (RegisterMethod Sample.ifc "Mul" "ii" "i"
                                     (Some Sample.sum)) Sample.with_sum)))
  = state_of (register (RegisterMethod Sample.ifc "Mul" "ii" "i" (Some Sample.sum))
                (state_of (register (RegisterSignal Sample.ifc "Changed" "i")
                             Sample.with_sum))).
Proof.
  apply (registrations_commute
           (RegisterMethod Sample.ifc "Mul" "ii" "i" (Some Sample.sum))
           (RegisterSignal Sample.ifc "Changed" "i") Sample.with_sum).
  simpl. tauto.
Defined.

(** ** Registration calls that throw *)

Lemma taken_registered r o :
  taken r (the_interface o (interface_of r)) = true →
  ∃ d, interfaces_ o !! interface_of r = Some d ∧ apply_registration r d = d.
Proof.
  unfold the_interface. intros Htaken.
  destruct (interfaces_ o !! interface_of r) as [d|] eqn:Hd.
  - exists d. split; [done|]. simpl in Htaken.
    destruct r as [i n a b cb|i n sig|i n sig g s]; simpl in *;
      apply bool_decide_eq_true in Htaken as [x Hx];
      rewrite (emplace_present _ _ _ _ Hx); simpl;
      auto using with_methods_id, with_signals_id, with_properties_id.
  - simpl in Htaken.
    destruct r; simpl in Htaken; apply bool_decide_eq_true in Htaken as [x Hx];
      by rewrite lookup_empty in Hx.
Qed.

(** X12. A registration call that throws leaves the object exactly as it
    was, and the error it throws carries [EINVAL]. A call returns normally
    exactly when its callbacks pass the validation and its name is not yet
    taken in its category of its interface. *)
Theorem registration_is_all_or_nothing (r : Registration) (o : Object) :
  (∀ e, thrown (register r o) = Some e →
     state_of (register r o) = o ∧ errNo e = EINVAL)
  ∧ (thrown (register r o) = None
     ↔ accepted r = true ∧ taken r (the_interface o (interface_of r)) = false).
Proof.
  rewrite register_thrown. split.
  - intros e He. destruct (accepted r) eqn:Hacc.
    + destruct (taken r _) eqn:Htaken; [|done].
      split; [|injection He as <-; by destruct r].
      rewrite (register_state _ _ Hacc).
      destruct (taken_registered _ _ Htaken) as (d & Hd & Hsame).
      rewrite (the_interface_lookup _ _ _ Hd), Hsame, (insert_id _ _ _ Hd).
      apply with_interfaces_id.
    + split; [by apply register_rejected|]. injection He as <-. by destruct r.
  - destruct (accepted r); [|by split; [|intros []]].
    destruct (taken r _); split; try done. by intros [].
Qed.

Lemma registration_is_all_or_nothing_witness :
  state_of (register (RegisterSignal Sample.ifc "Changed" "u") Sample.calc)
  = Sample.calc
  ∧ errNo AlreadyExists_signal = EINVAL.
Proof.
  apply (proj1 (registration_is_all_or_nothing
                  (RegisterSignal Sample.ifc "Changed" "u") Sample.calc)).
  vm_compute. reflexivity.
Defined.

(** ** When [finishRegistration] returns *)

Lemma finishRegistration_loop_returns_owned path items :
  ∀ c m,
    Forall (λ item, slot_ptr (slot_ item.2) = None
                    ∨ slot_deleter (slot_ item.2) = true) items →
    Forall (λ item, vtable_ item.2 = []) items →
    ∃ c' m', finishRegistration_loop path items c m = Returned (c', m').
Proof.
  induction items as [|[i0 d0] rest IH]; intros c m Hslots Hempty; simpl; [eauto|].
  apply Forall_cons in Hslots as [Hslot Hslots].
  apply Forall_cons in Hempty as [Hvt Hempty]. simpl in Hslot, Hvt.
  rewrite (createInterfaceVTable_fresh _ Hvt).
  unfold activateInterfaceVTable. cbn [addObjectVTable with_vtable slot_ slot_ptr].
  destruct (slot_ptr (slot_ d0)) as [old|].
  - destruct Hslot as [|Hdel]; [done|]. cbn [slot_deleter]. rewrite Hdel. by apply IH.
  - by apply IH.
Qed.

(** X14. On an object in which every owned slot has its deleter (which
    [finishRegistration] and the registration calls maintain),
    [finishRegistration] returns exactly when no interface has a vtable yet,
    fails [assert(vtable.empty())] exactly when some interface has one, and
    never lets an exception out. *)
Theorem finishRegistration_outcome (c : Connection) (o : Object)
    (Hslots : map_Forall (λ _ d, slot_ptr (slot_ d) = None
                                 ∨ slot_deleter (slot_ d) = true) (interfaces_ o)) :
  ((∃ c' o', finishRegistration c o = Returned (c', o'))
   ↔ ∀ i d, interfaces_ o !! i = Some d → vtable_ d = [])
  ∧ (finishRegistration c o = Aborted
     ↔ ∃ i d, interfaces_ o !! i = Some d ∧ vtable_ d ≠ [])
  ∧ (∀ e, finishRegistration c o ≠ Propagated e).
Proof.
  assert (Hitems : Forall (λ item, slot_ptr (slot_ item.2) = None
                                   ∨ slot_deleter (slot_ item.2) = true)
                     (StdMap.iterate (interfaces_ o))).
  { apply Forall_forall. intros [i d] Hd%elem_of_iterate.
    apply (map_Forall_lookup_1 _ _ _ _ Hslots Hd). }
  assert (Hbuilt : (∃ i d, interfaces_ o !! i = Some d ∧ vtable_ d ≠ []) →
                   finishRegistration c o = Aborted).
  { intros (i & d & Hd & Hvt). unfold finishRegistration.
    rewrite finishRegistration_loop_aborts; [done|done|].
    apply Exists_exists. exists (i, d). split; [by apply elem_of_iterate|done]. }
  assert (Hunbuilt : (∀ i d, interfaces_ o !! i = Some d → vtable_ d = []) →
                     ∃ c' o', finishRegistration c o = Returned (c', o')).
  { intros Hempty. unfold finishRegistration.
    destruct (finishRegistration_loop_returns_owned (objectPath_ o)
                (StdMap.iterate (interfaces_ o)) c (interfaces_ o) Hitems)
      as (c' & m' & ->); [|eauto].
    apply Forall_forall. intros [i d] Hd%elem_of_iterate. by apply (Hempty i). }
  assert (Hcases : (∀ i d, interfaces_ o !! i = Some d → vtable_ d = [])
                   ∨ ∃ i d, interfaces_ o !! i = Some d ∧ vtable_ d ≠ []).
  { destruct (decide (Forall (λ item : string * InterfaceData,
                                bool_decide (length (vtable_ item.2) = 0))
                        (StdMap.iterate (interfaces_ o)))) as [Hall|Hex].
    - left. intros i d Hd%elem_of_iterate.
      eapply Forall_forall in Hall; [|done]. simpl in Hall.
      apply bool_decide_unpack in Hall. by destruct (vtable_ d).
    - right. apply not_Forall_Exists in Hex; [|apply _].
      apply Exists_exists in Hex as ([i d] & Hd%elem_of_iterate & Hvt).
      exists i, d. split; [done|]. simpl in Hvt. intros Hnil. apply Hvt.
      rewrite Hnil. done. }
  split; [|split].
  - split; [|done]. intros (c' & o' & Hret) i d Hd.
    destruct Hcases as [Hempty|Hsome]; [by apply (Hempty i)|].
    rewrite (Hbuilt Hsome) in Hret. done.
  - split; [|done]. intros Habort.
    destruct Hcases as [Hempty|Hsome]; [|done].
    destruct (Hunbuilt Hempty) as (c' & o' & Hret). congruence.
  - intros e He. destruct Hcases as [Hempty|Hsome].
    + destruct (Hunbuilt Hempty) as (c' & o' & Hret). congruence.
    + rewrite (Hbuilt Hsome) in He. done.
Qed.

Lemma finishRegistration_outcome_witness :
  ∃ c' o', finishRegistration Connection_initial Sample.calc = Returned (c', o').
Proof.
  assert (Hun : unbuilt Sample.calc)
    by (apply Registering_unbuilt; repeat constructor).
  apply (proj1 (finishRegistration_outcome Connection_initial Sample.calc
                  ltac:(intros i d Hd; left;
                        apply (map_Forall_lookup_1 _ _ _ _ Hun Hd)))).
  intros i d Hd. apply (map_Forall_lookup_1 _ _ _ _ Hun Hd).
Defined.

(** ** The lookups of the entry points *)

Lemma method_callback_lookup_miss o i n :
  (∀ md, ¬ registered_method o i n md) →
  method_callback_lookup i n o = (None, inserted_method o i n).
Proof.
  intros Hfresh. unfold method_callback_lookup, inserted_method, the_interface.
  access_interface o i; simpl.
  - destruct (methods_ d !! n) as [md|] eqn:Hm.
    { destruct (Hfresh md). by exists d. }
    by rewrite (subscript_absent _ _ _ Hm).
  - rewrite subscript_absent by apply lookup_empty.
    unfold StdMap.store. by rewrite insert_insert_eq.
Qed.

Lemma property_lookup_miss o i n :
  (∀ pd, ¬ registered_property o i n pd) →
  property_lookup i n o = (PropertyData.default, inserted_property o i n).
Proof.
  intros Hfresh. unfold property_lookup, inserted_property, the_interface.
  access_interface o i; simpl.
  - destruct (properties_ d !! n) as [pd|] eqn:Hm.
    { destruct (Hfresh pd). by exists d. }
    by rewrite (subscript_absent _ _ _ Hm).
  - rewrite subscript_absent by apply lookup_empty.
    unfold StdMap.store. by rewrite insert_insert_eq.
Qed.

Lemma the_interface_fresh {V} (field : InterfaceData → gmap string V) o i n :
  field InterfaceData_default = ∅ →
  (∀ x, ¬ registered_in field o i n x) →
  field (the_interface o i) !! n = None.
Proof.
  intros Hdef Hfresh. unfold the_interface.
  destruct (interfaces_ o !! i) as [d|] eqn:Hd; simpl.
  - destruct (field d !! n) as [x|] eqn:Hx; [|done]. destruct (Hfresh x). by exists d.
  - by rewrite Hdef.
Qed.

Lemma inserted_interface_kept o i d' j d :
  vtable_ d' = vtable_ (the_interface o i) → slot_ d' = slot_ (the_interface o i) →
  interfaces_ o !! j = Some d →
  ∃ d'', interfaces_ (with_interfaces o (<[i := d']> (interfaces_ o))) !! j = Some d''
         ∧ vtable_ d'' = vtable_ d ∧ slot_ d'' = slot_ d.
Proof.
  intros Hvt Hsl Hd. simpl. destruct (decide (j = i)) as [->|Hne].
  - exists d'. rewrite lookup_insert_eq.
    by rewrite Hvt, Hsl, (the_interface_lookup _ _ _ Hd).
  - exists d. by rewrite lookup_insert_ne.
Qed.

(** An object is kept within another: same path, every registered descriptor
    still registered, every interface entry still there with its vtable and
    slot. *)
Lemma inserted_method_keeps o i n :
  (∀ md, ¬ registered_method o i n md) →
  objectPath_ (inserted_method o i n) = objectPath_ o
  ∧ (∀ j k md, registered_method o j k md →
       registered_method (inserted_method o i n) j k md)
  ∧ (∀ j k sd, registered_signal o j k sd →
       registered_signal (inserted_method o i n) j k sd)
  ∧ (∀ j k pd, registered_property o j k pd →
       registered_property (inserted_method o i n) j k pd)
  ∧ (∀ j d, interfaces_ o !! j = Some d →
       ∃ d', interfaces_ (inserted_method o i n) !! j = Some d'
             ∧ vtable_ d' = vtable_ d ∧ slot_ d' = slot_ d).
Proof.
  intros Hfresh. pose proof (the_interface_fresh methods_ o i n eq_refl Hfresh) as Hn.
  split; [done|]. split; [|split; [|split]].
  - intros j k md. apply (registered_in_kept methods_). intros k' x Hk'. simpl.
    rewrite lookup_insert_ne; [done|]. intros <-. congruence.
  - intros j k sd. by apply (registered_in_kept signals_).
  - intros j k pd. by apply (registered_in_kept properties_).
  - intros j d. by apply inserted_interface_kept.
Qed.

Lemma inserted_property_keeps o i n :
  (∀ pd, ¬ registered_property o i n pd) →
  objectPath_ (inserted_property o i n) = objectPath_ o
  ∧ (∀ j k md, registered_method o j k md →
       registered_method (inserted_property o i n) j k md)
  ∧ (∀ j k sd, registered_signal o j k sd →
       registered_signal (inserted_property o i n) j k sd)
  ∧ (∀ j k pd, registered_property o j k pd →
       registered_property (inserted_property o i n) j k pd)
  ∧ (∀ j d, interfaces_ o !! j = Some d →
       ∃ d', interfaces_ (inserted_property o i n) !! j = Some d'
             ∧ vtable_ d' = vtable_ d ∧ slot_ d' = slot_ d).
Proof.
  intros Hfresh.
  pose proof (the_interface_fresh properties_ o i n eq_refl Hfresh) as Hn.
  split; [done|]. split; [|split; [|split]].
  - intros j k md. by apply (registered_in_kept methods_).
  - intros j k sd. by apply (registered_in_kept signals_).
  - intros j k pd. apply (registered_in_kept properties_). intros k' x Hk'. simpl.
    rewrite lookup_insert_ne; [done|]. intros <-. congruence.
  - intros j d. by apply inserted_interface_kept.
Qed.

Lemma inserted_method_registered o i n :
  registered_method (inserted_method o i n) i n MethodData.default.
Proof. eexists. split; apply lookup_insert_eq. Qed.

Lemma inserted_property_registered o i n :
  registered_property (inserted_property o i n) i n PropertyData.default.
Proof. eexists. split; apply lookup_insert_eq. Qed.

(** C9. The lookup made by each entry point returns the callback of the
    registered member and the object unchanged when the interface has that
    member. When the interface or the member is absent, the lookup returns
    an empty callback and an object that differs from the one it was given
    in exactly one respect: a default-constructed descriptor is now
    registered under that interface and member (in an interface entry
    created on the way if need be); the path, every descriptor registered
    before, and the vtable and slot of every interface are kept. A property
    get dispatched for an absent property therefore returns, with the
    write-only error, this changed object; a method call or a property set
    dispatched for an absent member fails [assert(callback)] after its
    lookup. A dispatch for a registered member with a bound callback is
    decided by that callback. *)
Theorem lookup_frame (o : Object) (i n : string) :
  (∀ md, registered_method o i n md →
     method_callback_lookup i n o = (MethodData.callback_ md, o))
  ∧ (∀ pd, registered_property o i n pd →
       property_get_callback_lookup i n o = (PropertyData.getCallback_ pd, o)
       ∧ property_set_callback_lookup i n o = (PropertyData.setCallback_ pd, o))
  ∧ ((∀ md, ¬ registered_method o i n md) →
       method_callback_lookup i n o = (None, inserted_method o i n)
       ∧ inserted_method o i n ≠ o
       ∧ registered_method (inserted_method o i n) i n MethodData.default
       ∧ objectPath_ (inserted_method o i n) = objectPath_ o
       ∧ (∀ j k md, registered_method o j k md →
            registered_method (inserted_method o i n) j k md)
       ∧ (∀ j k sd, registered_signal o j k sd →
            registered_signal (inserted_method o i n) j k sd)
       ∧ (∀ j k pd, registered_property o j k pd →
            registered_property (inserted_method o i n) j k pd)
       ∧ (∀ j d, interfaces_ o !! j = Some d →
            ∃ d', interfaces_ (inserted_method o i n) !! j = Some d'
                  ∧ vtable_ d' = vtable_ d ∧ slot_ d' = slot_ d))
  ∧ ((∀ pd, ¬ registered_property o i n pd) →
       property_get_callback_lookup i n o = (None, inserted_property o i n)
       ∧ property_set_callback_lookup i n o = (None, inserted_property o i n)
       ∧ inserted_property o i n ≠ o
       ∧ registered_property (inserted_property o i n) i n PropertyData.default
       ∧ objectPath_ (inserted_property o i n) = objectPath_ o
       ∧ (∀ j k md, registered_method o j k md →
            registered_method (inserted_property o i n) j k md)
       ∧ (∀ j k sd, registered_signal o j k sd →
            registered_signal (inserted_property o i n) j k sd)
       ∧ (∀ j k pd, registered_property o j k pd →
            registered_property (inserted_property o i n) j k pd)
       ∧ (∀ j d, interfaces_ o !! j = Some d →
            ∃ d', interfaces_ (inserted_property o i n) !! j = Some d'
                  ∧ vtable_ d' = vtable_ d ∧ slot_ d' = slot_ d))
  ∧ (∀ reply, (∀ pd, ¬ registered_property o i n pd) →
       sdbus_property_get_callback i n reply o
       = Returned {| returnValue := 1;
                     effects := [ErrorSet "org.freedesktop.DBus.Error.Failed"
                                   "Cannot read property as it is write-only"];
                     userData := inserted_property o i n |})
  ∧ (∀ msg, getInterfaceName msg = i → getMemberName msg = n →
       (∀ md, ¬ registered_method o i n md) →
       sdbus_method_callback msg o = Aborted)
  ∧ (∀ value, (∀ pd, ¬ registered_property o i n pd) →
       sdbus_property_set_callback i n value o = Aborted)
  ∧ (∀ msg md f, getInterfaceName msg = i → getMemberName msg = n →
       registered_method o i n md → MethodData.callback_ md = Some f →
       observed (sdbus_method_callback msg o)
       = match f msg (createReply msg) with
         | Done reply => Returned (1%Z, [Invoke MethodCallback; Send reply])
         | Raise (sdbus_Error name message) =>
             Returned (1%Z, [Invoke MethodCallback;
                             ErrorSet (c_str name) (c_str message)])
         | Raise (other_exception what) => Propagated (other_exception what)
         end)
  ∧ (∀ reply pd, registered_property o i n pd →
       observed (sdbus_property_get_callback i n reply o)
       = match PropertyData.getCallback_ pd with
         | None => Returned (1%Z, [ErrorSet "org.freedesktop.DBus.Error.Failed"
                                     "Cannot read property as it is write-only"])
         | Some f =>
             match f reply with
             | Done reply => Returned (1%Z, [Invoke GetCallback; Populate reply])
             | Raise (sdbus_Error name message) =>
                 Returned (1%Z, [Invoke GetCallback;
                                 ErrorSet (c_str name) (c_str message)])
             | Raise (other_exception what) => Propagated (other_exception what)
             end
         end)
  ∧ (∀ value pd f, registered_property o i n pd →
       PropertyData.setCallback_ pd = Some f →
       observed (sdbus_property_set_callback i n value o)
       = match f value with
         | Done _ => Returned (1%Z, [Invoke SetCallback])
         | Raise (sdbus_Error name message) =>
             Returned (1%Z, [Invoke SetCallback;
                             ErrorSet (c_str name) (c_str message)])
         | Raise (other_exception what) => Propagated (other_exception what)
         end).
Proof.
  split; [apply method_callback_lookup_registered|].
  split.
  { intros pd H. rewrite property_get_callback_lookup_eq, property_set_callback_lookup_eq.
    by rewrite (property_lookup_registered _ _ _ _ H). }
  split.
  { intros Hfresh. split; [by apply method_callback_lookup_miss|]. split.
    - intros Heq. apply (Hfresh MethodData.default). rewrite <-Heq.
      apply inserted_method_registered.
    - split; [apply inserted_method_registered|by apply inserted_method_keeps]. }
  split.
  { intros Hfresh.
    rewrite property_get_callback_lookup_eq, property_set_callback_lookup_eq.
    rewrite (property_lookup_miss _ _ _ Hfresh). simpl.
    split; [done|]. split; [done|]. split.
    - intros Heq. apply (Hfresh PropertyData.default). rewrite <-Heq.
      apply inserted_property_registered.
    - split; [apply inserted_property_registered|by apply inserted_property_keeps]. }
  split.
  { intros reply Hfresh. unfold sdbus_property_get_callback.
    rewrite property_get_callback_lookup_eq, (property_lookup_miss _ _ _ Hfresh). done. }
  split.
  { intros msg <- <- Hfresh. apply sdbus_method_callback_unbound.
    intros md Hmd. by apply Hfresh in Hmd. }
  split.
  { intros value Hfresh. apply sdbus_property_set_callback_unbound.
    intros pd Hpd. by apply Hfresh in Hpd. }
  split.
  { intros msg md f <- <- Hreg Hcb.
    rewrite (sdbus_method_callback_registered _ _ _ _ Hreg Hcb).
    by destruct (f msg (createReply msg)) as [reply|[name message|what]]. }
  split.
  { intros reply pd Hreg.
    rewrite (sdbus_property_get_callback_registered _ _ _ _ _ Hreg).
    destruct (PropertyData.getCallback_ pd) as [f|]; [|done].
    by destruct (f reply) as [reply'|[name message|what]]. }
  intros value pd f Hreg Hcb.
  rewrite (sdbus_property_set_callback_registered _ _ _ _ _ _ Hreg Hcb).
  by destruct (f value) as [[]|[name message|what]].
Qed.

Lemma lookup_frame_witness :
  method_callback_lookup Sample.ifc "Sum" Sample.calc = (Some Sample.sum, Sample.calc)
  ∧ method_callback_lookup Sample.ifc "Nope" Sample.calc
    = (None, inserted_method Sample.calc Sample.ifc "Nope")
  ∧ registered_method (inserted_method Sample.calc Sample.ifc "Nope") Sample.ifc "Sum"
      (MethodData.mk "ii" "i" (Some Sample.sum))
  ∧ sdbus_property_get_callback "org.unknown" "Volume" (Sample.plain []) Sample.calc
    = Returned {| returnValue := 1;
                  effects := [ErrorSet "org.freedesktop.DBus.Error.Failed"
                                "Cannot read property as it is write-only"];
                  userData := inserted_property Sample.calc "org.unknown" "Volume" |}
  ∧ inserted_property Sample.calc "org.unknown" "Volume" ≠ Sample.calc.
Proof.
  assert (Hsum : registered_method Sample.calc Sample.ifc "Sum"
                   (MethodData.mk "ii" "i" (Some Sample.sum)))
    by (eexists; split; by vm_compute).
  assert (Hnope : ∀ md, ¬ registered_method Sample.calc Sample.ifc "Nope" md).
  { intros md (d & Hd & Hm). vm_compute in Hd. injection Hd as <-.
    vm_compute in Hm. discriminate Hm. }
  assert (Hunknown : ∀ pd, ¬ registered_property Sample.calc "org.unknown" "Volume" pd).
  { intros pd (d & Hd & Hm). vm_compute in Hd. discriminate Hd. }
  destruct (lookup_frame Sample.calc Sample.ifc "Sum") as (Hhit & _).
  destruct (lookup_frame Sample.calc Sample.ifc "Nope")
    as (_ & _ & Hmiss & _).
  destruct (Hmiss Hnope) as (Hlookup & _ & _ & _ & Hkept & _).
  destruct (lookup_frame Sample.calc "org.unknown" "Volume")
    as (_ & _ & _ & Hpmiss & Hget & _).
  destruct (Hpmiss Hunknown) as (_ & _ & Hne & _).
  split; [exact (Hhit _ Hsum)|]. split; [exact Hlookup|].
  split; [exact (Hkept _ _ _ Hsum)|]. split; [exact (Hget _ Hunknown)|exact Hne].
Defined.
